(** * Audix backend ([src/backend/server.js]): a shallow embedding

    The server is one Express application: signup, login, the song-upload
    pipeline (multer intake, tag extraction, field resolution, cover
    persistence, one INSERT), and three routes whose registration sits inside
    the upload handler's body.  The embedding keeps the shape of the source:
    handlers are programs in a state-and-exception monad over the server
    state (router table, file system, database tables, responses sent), the
    JavaScript [||] chains are written as [||]-combinators on optional
    strings, and the outside world (clock readings, I/O faults, the tag
    extractor, the credential hasher) is an explicit argument. *)

From Stdlib Require Import ZArith NArith QArith String Ascii List Lia.
From Stdlib Require Import DecimalString DecimalN.
From stdpp Require Import base option gmap strings list sorting.

Local Open Scope string_scope.
Local Open Scope list_scope.

(** ** JavaScript strings that may be [undefined] *)

Module JS.

(** A value that is either a string or [undefined]/[null]: tag fields of
    [metadata.common], text fields of [req.body]. *)
Definition ostring := option string.

(** Truthiness of such a value: [undefined] and the empty string are
    falsy, every other string is truthy. *)
Definition truthy (v : ostring) : bool :=
  match v with
  | Some s => negb (String.eqb s EmptyString)
  | None => false
  end.

(** [a || b] where both operands may be undefined. *)
Definition or (a b : ostring) : ostring :=
  if truthy a then a else b.

(** [a || d] where the last operand [d] is a string literal or a string
    variable, so the chain always yields a string. *)
Definition or_str (a : ostring) (d : string) : string :=
  match a with
  | Some s => if String.eqb s EmptyString then d else s
  | None => d
  end.

(** [xs?.[0]] on an array that may itself be undefined. *)
Definition opt_first {A} (xs : option (list A)) : option A :=
  match xs with
  | Some (x :: _) => Some x
  | Some [] => None
  | None => None
  end.

(** [n || 0] on a number that may be undefined. *)
Definition or_zero (n : option Q) : Q :=
  match n with
  | Some q => if Qeq_bool q 0 then 0%Q else q
  | None => 0%Q
  end.

(** A [Set] of strings keeps its members in insertion order; adding a
    member that is already there changes nothing. *)
Definition Set_add (s : list string) (x : string) : list string :=
  if existsb (String.eqb x) s then s else s ++ [x].

(** [new Set(xs)] followed by the spread [[...set]]. *)
Definition Set_of (xs : list string) : list string :=
  fold_left Set_add xs [].

(** Number-to-string conversion of a non-negative integer, as a template
    literal performs it. *)
Definition show (n : N) : string :=
  NilZero.string_of_uint (N.to_uint n).

End JS.

(** ** [path.parse(p).name] (POSIX flavour) *)

Module Path.

Definition slash : ascii := "/"%char.
Definition dot : ascii := "."%char.

Fixpoint contains (c : ascii) (s : string) : bool :=
  match s with
  | EmptyString => false
  | String a r => Ascii.eqb a c || contains c r
  end.

(** Drop the slashes at the front of a string. *)
Fixpoint drop_slashes (s : string) : string :=
  match s with
  | String a r => if Ascii.eqb a slash then drop_slashes r else s
  | EmptyString => EmptyString
  end.

Definition rev_string (s : string) : string :=
  string_of_list_ascii (rev (list_ascii_of_string s)).

(** Everything up to, and excluding, the first slash. *)
Fixpoint until_slash (s : string) : string :=
  match s with
  | EmptyString => EmptyString
  | String a r => if Ascii.eqb a slash then EmptyString else String a (until_slash r)
  end.

(** The last path segment, trailing slashes ignored: the scan of
    [path.parse] runs from the end of the string to the first slash that
    follows a non-slash character. *)
Definition base (p : string) : string :=
  rev_string (until_slash (drop_slashes (rev_string p))).

(** The part of a segment before its last dot (the whole segment when it
    has no dot). *)
Fixpoint before_last_dot (s : string) : string :=
  match s with
  | EmptyString => EmptyString
  | String a r =>
      if contains dot r then String a (before_last_dot r)
      else if Ascii.eqb a dot then EmptyString
      else s
  end.

(** [path.parse(p).name]: the segment without its extension.  A segment
    has no extension when it has no dot, when its only dot is its first
    character, or when it is [".."]. *)
Definition name (p : string) : string :=
  let b := base p in
  if negb (contains dot b) then b
  else if String.eqb (before_last_dot b) EmptyString then b
  else if String.eqb b ".." then b
  else before_last_dot b.

Definition is_absolute (p : string) : bool :=
  match p with
  | String a _ => Ascii.eqb a slash
  | EmptyString => false
  end.

(** [path.join(dir, rel)] for a directory without a trailing slash and a
    relative path that needs no normalisation. *)
Definition join (dir rel : string) : string :=
  dir +:+ "/" +:+ rel.

End Path.

(** A string made of decimal digits only. *)
Fixpoint all_digits (s : string) : bool :=
  match s with
  | EmptyString => true
  | String a r =>
      (match a with
       | "0" | "1" | "2" | "3" | "4" | "5" | "6" | "7" | "8" | "9" => true
       | _ => false
       end)%char && all_digits r
  end.

(** ** Data model *)

Definition Buffer := list Byte.byte.

(** What [mm.parseFile] returns: [metadata.common] and [metadata.format]. *)
Record picture := { pic_format : string; pic_data : Buffer }.

Record common_tags := {
  c_title : JS.ostring;
  c_artist : JS.ostring;
  c_album : JS.ostring;
  c_genre : option (list string);
  c_picture : option (list picture)
}.

Record format_info := { f_bitrate : option Q; f_duration : option Q }.

Record metadata := { common : common_tags; format : format_info }.

(** The multipart request of the upload route: the file part named
    ["song"], if any, and the text fields of [req.body]. *)
Record file_part := { originalname : string; payload : Buffer }.

Record upload_body := {
  b_title : JS.ostring;
  b_artist : JS.ostring;
  b_album : JS.ostring;
  b_genre : JS.ostring;
  b_mood : JS.ostring;
  b_language : JS.ostring;
  b_userId : option Z
}.

Record upload_request := { u_file : option file_part; u_body : upload_body }.

(** [req.file] as multer fills it in. *)
Record multer_file := { mf_originalname : string; mf_path : string }.

(** The eleven parameters of the INSERT into [songs], in column order. *)
Record song_row := {
  s_title : string;
  s_artist : string;
  s_album : string;
  s_mood : string;
  s_genre : string;
  s_language : JS.ostring;
  s_filepath : string;
  s_user_id : option Z;
  s_bitrate : Q;
  s_duration : Q;
  s_thumbnail : option string
}.

Record user := { u_id : Z; u_email : JS.ostring; u_password : string }.

Record playlist := { p_id : Z; p_name : string; p_user_id : option Z }.

Record play := { h_user_id : option Z; h_song_id : option Z; played_at : N }.

Record credentials := { email : JS.ostring; password : JS.ostring }.

(** JSON bodies of responses. *)
#[local] Set Warnings "-register-all".
Inductive json :=
| JNull
| JBool (b : bool)
| JNum (q : Q)
| JStr (s : string)
| JArr (items : list json)
| JObj (fields : list (string * json)).

Record response := { status : N; body : json }.

Inductive method := GET | POST.

Inductive handler_id :=
| H_signup | H_login | H_upload | H_playlists | H_play | H_recommendations.

Record route := { r_method : method; r_path : string; r_handler : handler_id }.

(** The SQL statements of the source with their parameter arrays. *)
Inductive sql :=
| InsertUser (e : JS.ostring) (hash : string)
| SelectUserByEmail (e : JS.ostring)
| InsertSong (row : song_row)
| SelectPlaylists (userId : option Z)
| InsertHistory (userId songId : option Z)
| SelectRecentMoods (userId : option Z)
| SelectSongsByMood (moods : list string).

(** Observable effects, in the order they happen. *)
Inductive event :=
| EvStore (path : string) (data : Buffer)
| EvParse (path : string)
| EvMkdir (path : string)
| EvWrite (path : string) (data : Buffer)
| EvQuery (q : sql)
| EvRegister (r : route)
| EvRespond (r : response).

(** The server: Express router stack, file system, database tables and
    the trace of effects so far. *)
Record server := {
  routes : list route;
  files : gmap string Buffer;
  dirs : gset string;
  users : list user;
  user_seq : Z;
  songs : list (Z * song_row);
  song_seq : Z;
  playlists : list playlist;
  history : list play;
  trace : list event
}.

(** What the outside world decides during one request: the two readings
    of [Date.now()] (multer's filename callback, the cover name), the
    database clock that stamps a play, the salt bcrypt draws, the error
    message of [mkdirSync], of [writeFileSync] and of the k-th query of the
    handler when they fail, and the order [ORDER BY RANDOM()] produces. *)
Record world := {
  now_intake : N;
  now_cover : N;
  now_db : N;
  salt : string;
  mkdir_fault : option string;
  write_fault : option string;
  db_fault : nat -> option string;
  shuffle : list (Z * song_row) -> list (Z * song_row)
}.

(** The collaborators the source imports and the process constants: the
    working directory, [__dirname], the tag extractor of music-metadata as
    a function of the artifact's bytes (an error message or the tags), and
    bcrypt's hash (password, salt; the cost factor is the constant 10) and
    compare (password, hash). *)
Class Platform := {
  cwd : string;
  dirname : string;
  parseFile : Buffer -> string + metadata;
  bcrypt_hash : string -> string -> string;
  bcrypt_compare : string -> string -> bool
}.

(** ** Handlers as state-and-exception programs

    A handler body either completes with a value or throws an error
    message; in both cases the effects it had on the server stay. *)

Definition M (A : Type) : Type := server -> (string + A) * server.

Definition ret {A} (a : A) : M A := fun st => (inr a, st).

Definition bind {A B} (m : M A) (k : A -> M B) : M B :=
  fun st =>
    match m st with
    | (inr a, st') => k a st'
    | (inl err, st') => (inl err, st')
    end.

Definition throw {A} (msg : string) : M A := fun st => (inl msg, st).

(** [try { body } catch (err) { handler }] *)
Definition try_catch (body : M unit) (handler : string -> M unit) : M unit :=
  fun st =>
    match body st with
    | (inr a, st') => (inr a, st')
    | (inl err, st') => handler err st'
    end.

Definition gets {A} (f : server -> A) : M A := fun st => (inr (f st), st).

Definition modify (f : server -> server) : M unit := fun st => (inr tt, f st).

Declare Scope handler_scope.
Delimit Scope handler_scope with handler.
Notation "x <- c ;; k" := (bind c (fun x => k))
  (at level 100, c at next level, right associativity) : handler_scope.
Notation "c ;; k" := (bind c (fun _ => k))
  (at level 100, right associativity) : handler_scope.
Local Open Scope handler_scope.

Definition emit (e : event) (st : server) : server :=
  {| routes := routes st; files := files st; dirs := dirs st;
     users := users st; user_seq := user_seq st;
     songs := songs st; song_seq := song_seq st;
     playlists := playlists st; history := history st;
     trace := trace st ++ [e] |}.

Definition set_files (f : gmap string Buffer) (st : server) : server :=
  {| routes := routes st; files := f; dirs := dirs st;
     users := users st; user_seq := user_seq st;
     songs := songs st; song_seq := song_seq st;
     playlists := playlists st; history := history st;
     trace := trace st |}.

Definition set_dirs (d : gset string) (st : server) : server :=
  {| routes := routes st; files := files st; dirs := d;
     users := users st; user_seq := user_seq st;
     songs := songs st; song_seq := song_seq st;
     playlists := playlists st; history := history st;
     trace := trace st |}.

Definition set_routes (r : list route) (st : server) : server :=
  {| routes := r; files := files st; dirs := dirs st;
     users := users st; user_seq := user_seq st;
     songs := songs st; song_seq := song_seq st;
     playlists := playlists st; history := history st;
     trace := trace st |}.

Definition add_user (e : JS.ostring) (hash : string) (st : server) : server :=
  {| routes := routes st; files := files st; dirs := dirs st;
     users := users st ++ [{| u_id := user_seq st; u_email := e; u_password := hash |}];
     user_seq := user_seq st + 1;
     songs := songs st; song_seq := song_seq st;
     playlists := playlists st; history := history st;
     trace := trace st |}.

Definition add_song (row : song_row) (st : server) : server :=
  {| routes := routes st; files := files st; dirs := dirs st;
     users := users st; user_seq := user_seq st;
     songs := songs st ++ [(song_seq st, row)]; song_seq := song_seq st + 1;
     playlists := playlists st; history := history st;
     trace := trace st |}.

Definition add_play (h : play) (st : server) : server :=
  {| routes := routes st; files := files st; dirs := dirs st;
     users := users st; user_seq := user_seq st;
     songs := songs st; song_seq := song_seq st;
     playlists := playlists st; history := history st ++ [h];
     trace := trace st |}.

(** [res.status(code).json(body)] *)
Definition res_json (code : N) (b : json) : M unit :=
  modify (emit (EvRespond {| status := code; body := b |})).

(** [app.get(path, handler)] and [app.post(path, handler)]: one more layer
    at the end of the router stack. *)
Definition app_register (m : method) (path : string) (h : handler_id) : M unit :=
  let r := {| r_method := m; r_path := path; r_handler := h |} in
  modify (fun st => emit (EvRegister r) (set_routes (routes st ++ [r]) st)).

(** The responses, route registrations and queries found in a trace. *)
Definition responses (t : list event) : list response :=
  omap (fun e => match e with EvRespond r => Some r | _ => None end) t.

Definition queries (t : list event) : list sql :=
  omap (fun e => match e with EvQuery q => Some q | _ => None end) t.

Definition cover_writes (t : list event) : list (string * Buffer) :=
  omap (fun e => match e with EvWrite p d => Some (p, d) | _ => None end) t.

(** SQL comparison [col = $n]: never true when either side is NULL. *)
Definition sql_eq_str (a b : JS.ostring) : bool :=
  match a, b with
  | Some x, Some y => String.eqb x y
  | _, _ => false
  end.

Definition sql_eq_id (a b : option Z) : bool :=
  match a, b with
  | Some x, Some y => Z.eqb x y
  | _, _ => false
  end.

(** [ORDER BY h.played_at DESC]: the later play comes first. *)
Definition later_first (a b : N * string) : Prop := (fst b <= fst a)%N.

#[global] Instance later_first_dec : RelDecision later_first.
Proof. intros a b. unfold later_first. apply _. Defined.

(** JSON renderings of rows. *)
Definition json_ostring (v : JS.ostring) : json :=
  match v with Some s => JStr s | None => JNull end.

Definition json_id (v : option Z) : json :=
  match v with Some z => JNum (inject_Z z) | None => JNull end.

Definition json_song (r : Z * song_row) : json :=
  JObj [("id", JNum (inject_Z (fst r)));
        ("title", JStr (s_title (snd r)));
        ("artist", JStr (s_artist (snd r)));
        ("album", JStr (s_album (snd r)));
        ("mood", JStr (s_mood (snd r)));
        ("genre", JStr (s_genre (snd r)));
        ("language", json_ostring (s_language (snd r)));
        ("filepath", JStr (s_filepath (snd r)));
        ("user_id", json_id (s_user_id (snd r)));
        ("bitrate", JNum (s_bitrate (snd r)));
        ("duration", JNum (s_duration (snd r)));
        ("thumbnail", json_ostring (s_thumbnail (snd r)))].

Definition json_playlist (p : playlist) : json :=
  JObj [("id", JNum (inject_Z (p_id p))); ("name", JStr (p_name p))].

(** The message of the TypeError raised by [file.path] when [file] is
    [undefined]. *)
Definition undefined_path_message : string :=
  "Cannot read properties of undefined (reading 'path')".

Inductive request :=
| Signup (c : credentials)
| Login (c : credentials)
| Upload (u : upload_request)
| Playlists (userId : option Z)
| Play (userId songId : option Z)
| Recommendations (userId : option Z).

Definition target (r : request) : method * string :=
  match r with
  | Signup _ => (POST, "/api/auth/signup")
  | Login _ => (POST, "/api/auth/login")
  | Upload _ => (POST, "/api/upload/song")
  | Playlists _ => (GET, "/api/playlists")
  | Play _ _ => (POST, "/api/song/play")
  | Recommendations _ => (GET, "/api/user/recommendations")
  end.

Definition method_eqb (a b : method) : bool :=
  match a, b with
  | GET, GET | POST, POST => true
  | _, _ => false
  end.

Definition route_matches (r : request) (x : route) : bool :=
  method_eqb (fst (target r)) (r_method x) && String.eqb (snd (target r)) (r_path x).

Definition method_name (m : method) : string :=
  match m with GET => "GET" | POST => "POST" end.

(** ** The routes of [server.js] *)

Section Server.

Context `{Platform}.

(** [path.resolve(p)]: relative paths are taken from the working directory. *)
Definition resolve (p : string) : string :=
  if Path.is_absolute p then p else Path.join cwd p.

(** [pool.query(text, params)]: the statement is sent; the database either
    rejects it with a message, and then no table changes, or runs it. *)
Definition pool_query {A} (w : world) (k : nat) (q : sql) (run : M A) : M A :=
  modify (emit (EvQuery q)) ;;
  match db_fault w k with
  | Some msg => throw msg
  | None => run
  end.

(** multer's disk storage, lines 16-22: the file part is written under
    [./uploads/songs] with the name the [filename] callback computes, and
    [req.file] describes it.  Without a file part [req.file] stays
    undefined. *)
Definition multer_filename (w : world) (f : file_part) : string :=
  JS.show (now_intake w) +:+ "-" +:+ originalname f.

Definition multer_path (w : world) (f : file_part) : string :=
  "uploads/songs/" +:+ multer_filename w f.

Definition store_upload (w : world) (f : file_part) (st : server) : server :=
  emit (EvStore (multer_path w f) (payload f))
    (set_files (<[resolve (multer_path w f) := payload f]> (files st)) st).

Definition req_file (w : world) (f : file_part) : multer_file :=
  {| mf_originalname := originalname f; mf_path := multer_path w f |}.

Definition multer_single (w : world) (r : upload_request) : M (option multer_file) :=
  match u_file r with
  | None => ret None
  | Some f => modify (store_upload w f) ;; ret (Some (req_file w f))
  end.

(** [mm.parseFile(filePath)], lines 57-58: reads the artifact and extracts
    its tags.  A failure of the dynamic import is not told apart from a
    failure of the extractor. *)
Definition mm_parseFile (filePath : string) : M metadata :=
  modify (emit (EvParse filePath)) ;;
  content <- gets (fun st => files st !! filePath) ;;
  match content with
  | None => throw ("ENOENT: no such file or directory, open '" +:+ filePath +:+ "'")
  | Some bytes =>
      match parseFile bytes with
      | inl msg => throw msg
      | inr md => ret md
      end
  end.

Definition fs_existsSync (p : string) : M bool :=
  gets (fun st => bool_decide (resolve p ∈ dirs st)).

(** [fs.mkdirSync(dir, { recursive: true })] for a directory one level
    below an existing or missing parent. *)
Definition fs_mkdirSync (w : world) (parent dir : string) : M unit :=
  match mkdir_fault w with
  | Some msg => throw msg
  | None =>
      modify (fun st => emit (EvMkdir dir)
                          (set_dirs ({[resolve parent; resolve dir]} ∪ dirs st) st))
  end.

Definition fs_writeFileSync (w : world) (p : string) (data : Buffer) : M unit :=
  match write_fault w with
  | Some msg => throw msg
  | None =>
      modify (fun st => emit (EvWrite p data)
                          (set_files (<[resolve p := data]> (files st)) st))
  end.

(** Lines 60-63: the four [||] chains. *)
Definition resolve_title (md : metadata) (b : upload_body) (filename : string) : string :=
  JS.or_str (JS.or (c_title (common md)) (b_title b)) filename.

Definition resolve_artist (md : metadata) (b : upload_body) : string :=
  JS.or_str (JS.or (c_artist (common md)) (b_artist b)) "Unknown Artist".

Definition resolve_album (md : metadata) (b : upload_body) : string :=
  JS.or_str (JS.or (c_album (common md)) (b_album b)) "Unknown Album".

Definition resolve_genre (md : metadata) (b : upload_body) : string :=
  JS.or_str (JS.or (JS.opt_first (c_genre (common md))) (b_genre b)) "Unknown".

(** Lines 69-77: the cover, when the tags carry one. *)
Definition cover_dir : string :=
  Path.join (Path.join dirname "uploads") "covers".

Definition cover_file_name (w : world) (filename : string) : string :=
  JS.show (now_cover w) +:+ "-" +:+ filename +:+ "-cover.jpg".

Definition save_thumbnail (w : world) (md : metadata) (filename : string)
  : M (option string) :=
  match c_picture (common md) with
  | Some (cover :: _) =>
      let coverFileName := cover_file_name w filename in
      let coverDir := cover_dir in
      there <- fs_existsSync coverDir ;;
      (if there then ret tt else fs_mkdirSync w (Path.join dirname "uploads") coverDir) ;;
      let thumbnailPath := "uploads/covers/" +:+ coverFileName in
      fs_writeFileSync w (Path.join dirname thumbnailPath) (pic_data cover) ;;
      ret (Some thumbnailPath)
  | _ => ret None
  end.

(** Lines 50-99: the body of the [try] block. *)
Definition upload_try (w : world) (file : option multer_file) (b : upload_body) : M unit :=
  f <- match file with
       | Some f => ret f
       | None => throw undefined_path_message
       end ;;
  let filePath := resolve (mf_path f) in
  let filename := Path.name (mf_originalname f) in
  let userId := b_userId b in
  md <- mm_parseFile filePath ;;
  let title := resolve_title md b filename in
  let artist := resolve_artist md b in
  let album := resolve_album md b in
  let genre := resolve_genre md b in
  let language := b_language b in
  let bitrate := JS.or_zero (f_bitrate (format md)) in
  let duration := JS.or_zero (f_duration (format md)) in
  thumbnailPath <- save_thumbnail w md filename ;;
  let row := {| s_title := title; s_artist := artist; s_album := album;
                s_mood := JS.or_str (b_mood b) EmptyString; s_genre := genre;
                s_language := language; s_filepath := mf_path f;
                s_user_id := userId; s_bitrate := bitrate;
                s_duration := duration; s_thumbnail := thumbnailPath |} in
  pool_query w 0 (InsertSong row) (modify (add_song row)) ;;
  res_json 200 (JObj [("success", JBool true);
                      ("message", JStr "Song uploaded with metadata!")]).

(** Lines 100-103: the [catch] block ([console.error] writes to the
    process log only). *)
Definition upload_catch (err : string) : M unit :=
  res_json 500 (JObj [("error", JStr "Upload failed"); ("details", JStr err)]).

(** Lines 104-145: the three registrations that follow the [try]/[catch]
    inside the handler. *)
Definition register_nested : M unit :=
  app_register GET "/api/playlists" H_playlists ;;
  app_register POST "/api/song/play" H_play ;;
  app_register GET "/api/user/recommendations" H_recommendations.

(** Lines 49-147: the upload handler behind [upload.single("song")]. *)
Definition upload_handler (w : world) (file : option multer_file) (b : upload_body) : M unit :=
  try_catch (upload_try w file b) upload_catch ;;
  register_nested.

Definition upload_route (w : world) (r : upload_request) : M unit :=
  file <- multer_single w r ;;
  upload_handler w file (u_body r).

(** [bcrypt.hash] and [bcrypt.compare] reject a missing argument. *)
Definition bcrypt_hash_js (w : world) (pw : JS.ostring) : M string :=
  match pw with
  | Some p => ret (bcrypt_hash p (salt w))
  | None => throw "data and salt arguments required"
  end.

Definition bcrypt_compare_js (pw : JS.ostring) (hash : string) : M bool :=
  match pw with
  | Some p => ret (bcrypt_compare p hash)
  | None => throw "data and hash arguments required"
  end.

(** Lines 25-33. *)
Definition signup_handler (w : world) (c : credentials) : M unit :=
  hash <- bcrypt_hash_js w (password c) ;;
  id <- pool_query w 0 (InsertUser (email c) hash)
          (id <- gets user_seq ;; modify (add_user (email c) hash) ;; ret id) ;;
  res_json 200 (JObj [("user", JObj [("id", JNum (inject_Z id));
                                     ("email", json_ostring (email c))])]).

(** [SELECT * FROM users WHERE email = $1] *)
Definition matching_users (e : JS.ostring) (st : server) : list user :=
  List.filter (fun u => sql_eq_str (u_email u) e) (users st).

(** Lines 36-46. *)
Definition login_handler (w : world) (c : credentials) : M unit :=
  rows <- pool_query w 0 (SelectUserByEmail (email c)) (gets (matching_users (email c))) ;;
  match rows with
  | [] => res_json 401 (JObj [("error", JStr "User not found")])
  | user :: _ =>
      valid <- bcrypt_compare_js (password c) (u_password user) ;;
      if negb valid then res_json 401 (JObj [("error", JStr "Invalid password")])
      else res_json 200 (JObj [("user", JObj [("id", JNum (inject_Z (u_id user)));
                                              ("email", json_ostring (u_email user))])])
  end.

(** Lines 104-111. *)
Definition playlists_handler (w : world) (userId : option Z) : M unit :=
  rows <- pool_query w 0 (SelectPlaylists userId)
            (gets (fun st => List.filter (fun p => sql_eq_id (p_user_id p) userId)
                               (playlists st))) ;;
  res_json 200 (JArr (map json_playlist rows)).

(** Lines 112-121. *)
Definition play_handler (w : world) (userId songId : option Z) : M unit :=
  pool_query w 0 (InsertHistory userId songId)
    (modify (add_play {| h_user_id := userId; h_song_id := songId;
                         played_at := now_db w |})) ;;
  res_json 200 (JObj [("success", JBool true)]).

(** The first query of the recommendations route: the plays of the user
    joined with their songs, latest first, three rows at most, projected on
    the mood. *)
Definition history_join (st : server) (userId : option Z) : list (N * string) :=
  flat_map
    (fun h =>
       if sql_eq_id (h_user_id h) userId
       then map (fun s => (played_at h, s_mood (snd s)))
                (List.filter (fun s => sql_eq_id (Some (fst s)) (h_song_id h)) (songs st))
       else [])
    (history st).

Definition recent_moods (st : server) (userId : option Z) : list string :=
  map snd (take 3 (merge_sort later_first (history_join st userId))).

(** The second query: songs whose mood is one of the given moods, in an
    order the database picks at random, ten rows at most. *)
Definition songs_by_mood (w : world) (moods : list string) (st : server)
  : list (Z * song_row) :=
  take 10 (shuffle w (List.filter
                        (fun s => existsb (String.eqb (s_mood (snd s))) moods)
                        (songs st))).

(** Lines 122-145. *)
Definition recommendations_handler (w : world) (userId : option Z) : M unit :=
  recent <- pool_query w 0 (SelectRecentMoods userId)
              (gets (fun st => recent_moods st userId)) ;;
  let moods := JS.Set_of recent in
  result <- pool_query w 1 (SelectSongsByMood moods) (gets (songs_by_mood w moods)) ;;
  res_json 200 (JArr (map json_song result)).

(** The router stack after the module has been loaded (lines 25, 36, 49). *)
Definition top_level_routes : list route :=
  [ {| r_method := POST; r_path := "/api/auth/signup"; r_handler := H_signup |};
    {| r_method := POST; r_path := "/api/auth/login"; r_handler := H_login |};
    {| r_method := POST; r_path := "/api/upload/song"; r_handler := H_upload |} ].

Definition run_handler (h : handler_id) (w : world) (r : request) : M unit :=
  match h, r with
  | H_signup, Signup c => signup_handler w c
  | H_login, Login c => login_handler w c
  | H_upload, Upload u => upload_route w u
  | H_playlists, Playlists uid => playlists_handler w uid
  | H_play, Play uid sid => play_handler w uid sid
  | H_recommendations, Recommendations uid => recommendations_handler w uid
  | _, _ => ret tt
  end.

(** Express routing: the first layer whose method and path match handles
    the request; without one the final handler answers 404. *)
Definition serve (w : world) (r : request) : M unit :=
  rs <- gets routes ;;
  match List.find (route_matches r) rs with
  | Some x => run_handler (r_handler x) w r
  | None =>
      res_json 404 (JStr ("Cannot " +:+ method_name (fst (target r)) +:+ " "
                          +:+ snd (target r)))
  end.

(** The state after a request, whatever the handler's outcome. *)
Definition after (m : M unit) (st : server) : server := snd (m st).

(** The effects of one request: what it appended to the trace. *)
Definition new_events (m : M unit) (st : server) : list event :=
  drop (length (trace st)) (trace (after m st)).

(** A sequence of upload requests, each with its own world. *)
Fixpoint uploads (rs : list (world * upload_request)) (st : server) : server :=
  match rs with
  | [] => st
  | (w, r) :: rest => uploads rest (after (serve w (Upload r)) st)
  end.

(** The routes the upload handler registers each time it runs. *)
Definition nested_routes : list route :=
  [ {| r_method := GET; r_path := "/api/playlists"; r_handler := H_playlists |};
    {| r_method := POST; r_path := "/api/song/play"; r_handler := H_play |};
    {| r_method := GET; r_path := "/api/user/recommendations";
       r_handler := H_recommendations |} ].

(** The two bodies the upload route answers with. *)
Definition upload_ok : response :=
  {| status := 200;
     body := JObj [("success", JBool true);
                   ("message", JStr "Song uploaded with metadata!")] |}.

Definition upload_failed (msg : string) : response :=
  {| status := 500;
     body := JObj [("error", JStr "Upload failed"); ("details", JStr msg)] |}.

(** The cover images of a tag set; none when [picture] is undefined. *)
Definition covers (md : metadata) : list picture :=
  match c_picture (common md) with
  | Some pictures => pictures
  | None => []
  end.

(** The stages of the pipeline at which the [try] block can raise, with the
    condition under which the stage is reached and raises [msg]. *)
Inductive stage := Extraction | CoverDirectory | CoverWrite | DatabaseInsert.

Definition cover_dir_ready (w : world) (st : server) : Prop :=
  resolve cover_dir ∈ dirs st ∨ mkdir_fault w = None.

Inductive raised_at (w : world) (st : server) (f : file_part)
  : stage -> string -> Prop :=
| raised_extraction msg :
    parseFile (payload f) = inl msg ->
    raised_at w st f Extraction msg
| raised_cover_directory md msg :
    parseFile (payload f) = inr md ->
    covers md <> [] ->
    resolve cover_dir ∉ dirs st ->
    mkdir_fault w = Some msg ->
    raised_at w st f CoverDirectory msg
| raised_cover_write md msg :
    parseFile (payload f) = inr md ->
    covers md <> [] ->
    cover_dir_ready w st ->
    write_fault w = Some msg ->
    raised_at w st f CoverWrite msg
| raised_database_insert md msg :
    parseFile (payload f) = inr md ->
    (covers md = [] \/ (cover_dir_ready w st /\ write_fault w = None)) ->
    db_fault w 0 = Some msg ->
    raised_at w st f DatabaseInsert msg.

End Server.

(** ** The fallback policy in the words of the specification

    Each descriptive field takes the embedded tag value if non-empty, else
    the client-supplied field if non-empty, else a fixed default; exactly
    one of the three tiers wins. *)





(** Every key that occurs in a JSON document, at any depth. *)
Fixpoint json_keys (j : json) : list string :=
  match j with
  | JObj fields => flat_map (fun kv => fst kv :: json_keys (snd kv)) fields
  | JArr items => flat_map json_keys items
  | _ => []
  end.


(** ** Sample inputs *)

Module Sample.

Definition no_tags : metadata :=
  {| common := {| c_title := None; c_artist := None; c_album := None;
                  c_genre := None; c_picture := None |};
     format := {| f_bitrate := None; f_duration := None |} |}.

Definition tagged : metadata :=
  {| common := {| c_title := Some "Blue in Green"; c_artist := Some EmptyString;
                  c_album := None; c_genre := Some ["Jazz"; "Modal"];
                  c_picture :=
                    Some [ {| pic_format := "image/jpeg"; pic_data := [Byte.x01] |};
                           {| pic_format := "image/png"; pic_data := [Byte.x02] |} ] |};
     format := {| f_bitrate := Some (128000 # 1); f_duration := Some (7 # 2) |} |}.

(** A toy extractor: an empty artifact is unreadable, an artifact that
    starts with byte 01 carries tags and two covers, any other carries
    none. *)
Definition extractor (b : Buffer) : string + metadata :=
  match b with
  | [] => inl "Failed to determine audio format"
  | Byte.x01 :: _ => inr tagged
  | _ => inr no_tags
  end.

Definition platform : Platform :=
  {| cwd := "/srv/audix";
     dirname := "/srv/audix";
     parseFile := extractor;
     bcrypt_hash := fun pw s => s +:+ "$" +:+ pw;
     bcrypt_compare := fun pw h => String.eqb h ("salt$" +:+ pw) |}.

Definition calm : world :=
  {| now_intake := 1700000000000; now_cover := 1700000000001;
     now_db := 1700000000002; salt := "salt";
     mkdir_fault := None; write_fault := None;
     db_fault := fun _ => None; shuffle := fun l => l |}.

Definition with_faults (mk wr : option string) (db : nat -> option string) : world :=
  {| now_intake := 1700000000000; now_cover := 1700000000001;
     now_db := 1700000000002; salt := "salt";
     mkdir_fault := mk; write_fault := wr;
     db_fault := db; shuffle := fun l => l |}.

Definition boot : server :=
  {| routes := top_level_routes; files := ∅; dirs := ∅;
     users := [ {| u_id := 1; u_email := Some "a@b.com"; u_password := "salt$pw123" |} ];
     user_seq := 2; songs := []; song_seq := 1;
     playlists := []; history := []; trace := [] |}.

Definition plain_body : upload_body :=
  {| b_title := None; b_artist := None; b_album := None; b_genre := None;
     b_mood := None; b_language := None; b_userId := Some 7%Z |}.

Definition track (bytes : Buffer) : file_part :=
  {| originalname := "track.mp3"; payload := bytes |}.

Definition upload_of (bytes : Buffer) : upload_request :=
  {| u_file := Some (track bytes); u_body := plain_body |}.

Definition no_file : upload_request :=
  {| u_file := None; u_body := plain_body |}.

Definition mood_song (m : string) : song_row :=
  {| s_title := "t"; s_artist := "a"; s_album := "b"; s_mood := m;
     s_genre := "g"; s_language := None; s_filepath := "uploads/songs/0-x.mp3";
     s_user_id := Some 7%Z; s_bitrate := 0; s_duration := 0;
     s_thumbnail := None |}.

(** A listener who played a happy song, then a sad one, then the happy one
    again, after an older calm one. *)
Definition listener : server :=
  {| routes := top_level_routes ++ nested_routes; files := ∅; dirs := ∅;
     users := []; user_seq := 1;
     songs := [ (1%Z, mood_song "happy"); (2%Z, mood_song "sad");
                (3%Z, mood_song "calm") ];
     song_seq := 4; playlists := [];
     history := [ {| h_user_id := Some 7%Z; h_song_id := Some 3%Z; played_at := 10 |};
                  {| h_user_id := Some 7%Z; h_song_id := Some 1%Z; played_at := 20 |};
                  {| h_user_id := Some 7%Z; h_song_id := Some 2%Z; played_at := 30 |};
                  {| h_user_id := Some 8%Z; h_song_id := Some 3%Z; played_at := 35 |};
                  {| h_user_id := Some 7%Z; h_song_id := Some 1%Z; played_at := 40 |} ];
     trace := [] |}.

(** The row of the scenario "track.mp3, no tags, no client fields". *)
Definition track_row : song_row :=
  {| s_title := "track"; s_artist := "Unknown Artist"; s_album := "Unknown Album";
     s_mood := EmptyString; s_genre := "Unknown"; s_language := None;
     s_filepath := "uploads/songs/1700000000000-track.mp3";
     s_user_id := Some 7%Z; s_bitrate := 0; s_duration := 0;
     s_thumbnail := None |}.

(** Two uploads of different bytes under the same filename within the same
    millisecond. *)
Definition same_millisecond : list (world * upload_request) :=
  [ (calm, upload_of [Byte.x00]); (calm, upload_of [Byte.x02]) ].

Definition alice : credentials :=
  {| email := Some "a@b.com"; password := Some "pw123" |}.

Definition mallory : credentials :=
  {| email := Some "a@b.com"; password := Some "guess" |}.

Definition stranger : credentials :=
  {| email := Some "nobody@b.com"; password := Some "pw123" |}.

End Sample.

(** ** Further notions: runs of requests, an invariant, sample runs *)

(** The directories [mkdirSync] was asked to create, as found in a trace. *)
Definition mkdir_calls (t : list event) : list string :=
  omap (fun e => match e with EvMkdir p => Some p | _ => None end) t.

Section Runs.

Context `{Platform}.

(** Every song row names an artifact that is in the file system. *)
Definition songs_stored (st : server) : Prop :=
  forall id row, (id, row) ∈ songs st -> is_Some (files st !! resolve (s_filepath row)).

(** A run of requests, each with its own world. *)
Fixpoint serve_all (qs : list (world * request)) (st : server) : server :=
  match qs with
  | [] => st
  | (w, q) :: rest => serve_all rest (after (serve w q) st)
  end.

(** The effects of the cover step of a successful upload. *)
Definition cover_events (w : world) (st : server) (f : file_part) (md : metadata)
  : list event :=
  match covers md with
  | [] => []
  | cover :: _ =>
      (if bool_decide (resolve cover_dir ∈ dirs st) then [] else [EvMkdir cover_dir])
      ++ [EvWrite (Path.join dirname
                     ("uploads/covers/" +:+ cover_file_name w (Path.name (originalname f))))
            (pic_data cover)]
  end.

End Runs.

Module Tour.

Import Sample.

(** A world in which the database rejects every statement. *)
Definition down : world :=
  with_faults None None (fun _ => Some "connection refused").

(** An evening on a fresh server: an upload with covers, a login, a play
    of the new song and a look at the recommendations. *)
Definition evening : list (world * request) :=
  [ (calm, Upload (upload_of [Byte.x01]));
    (calm, Login alice);
    (calm, Play (Some 7%Z) (Some 1%Z));
    (calm, Recommendations (Some 7%Z)) ].

Definition newcomer : credentials :=
  {| email := Some "new@b.com"; password := Some "secret" |}.

(** A server with three playlists of two owners. *)
Definition library : server :=
  {| routes := top_level_routes ++ nested_routes; files := ∅; dirs := ∅;
     users := []; user_seq := 1; songs := []; song_seq := 1;
     playlists := [ {| p_id := 1; p_name := "Morning"; p_user_id := Some 7%Z |};
                    {| p_id := 2; p_name := "Gym"; p_user_id := Some 8%Z |};
                    {| p_id := 3; p_name := "Night"; p_user_id := Some 7%Z |} ];
     history := []; trace := [] |}.

End Tour.

(** ** Proof tools *)

Ltac unfold_monad :=
  unfold res_json, app_register in *;
  unfold bind, try_catch, ret, throw, modify, gets in *.

Ltac unfold_upload :=
  unfold upload_route, multer_single, store_upload, req_file, upload_handler,
    upload_try, upload_catch,
    register_nested, mm_parseFile, save_thumbnail, fs_existsSync, fs_mkdirSync,
    fs_writeFileSync, pool_query in *.

Ltac state_fields :=
  cbn [fst snd emit set_files set_dirs set_routes add_song files dirs routes
       songs song_seq trace mf_path mf_originalname] in *.

(** One case split on what the world or the extractor decided: the
    scrutinee of a [match] of the unfolded pipeline. *)
Ltac upload_case :=
  match goal with
  | |- context [match parseFile ?b with _ => _ end] =>
      destruct (parseFile b) as [?msg|?md] eqn:?
  | |- context [match c_picture ?c with _ => _ end] =>
      destruct (c_picture c) as [[|?cover ?rest]|] eqn:?
  | |- context [if bool_decide ?P then _ else _] =>
      destruct (bool_decide P) eqn:?
  | |- context [match mkdir_fault ?w with _ => _ end] =>
      destruct (mkdir_fault w) as [?msg|] eqn:?
  | |- context [match write_fault ?w with _ => _ end] =>
      destruct (write_fault w) as [?msg|] eqn:?
  | |- context [match db_fault ?w ?k with _ => _ end] =>
      destruct (db_fault w k) as [?msg|] eqn:?
  end.

Ltac tail_of_trace :=
  rewrite <- ?app_assoc; rewrite drop_app_length;
  cbn [app responses queries cover_writes omap list_omap].

Section Facts.

Context `{Platform}.

Lemma new_events_intro (m : M unit) (st : server) (evs : list event) :
  trace (after m st) = trace st ++ evs -> new_events m st = evs.
Proof. intros E. unfold new_events. rewrite E. apply drop_app_length. Qed.

Lemma insert_keeps (m : gmap string Buffer) (k k' : string) (v v' : Buffer) :
  is_Some (<[k' := v']> (<[k := v]> m) !! k).
Proof. rewrite !lookup_insert_is_Some'. auto. Qed.

(** The upload route never lets an exception escape, and always leaves the
    three nested routes at the end of the router stack. *)
Lemma upload_route_completes (w : world) (r : upload_request) (st : server) :
  fst (upload_route w r st) = inr tt /\
  routes (after (upload_route w r) st) = routes st ++ nested_routes.
Proof.
  unfold after. unfold_upload. unfold_monad.
  destruct (u_file r) as [f|]; state_fields.
  - rewrite lookup_insert_eq.
    repeat (upload_case; state_fields); rewrite <- ?app_assoc; auto.
  - rewrite <- ?app_assoc. auto.
Qed.


(** C9. An upload request without a file part: [file.path] raises inside
    the [try] block, the [catch] block answers with the structured 500
    response every other pipeline failure gets, nothing escapes the
    handler, and neither the songs table nor the file system changes. *)
Theorem C9_missing_file_is_a_caught_failure
    (w : world) (r : upload_request) (st : server) :
  u_file r = None ->
  fst (upload_route w r st) = inr tt /\
  new_events (upload_route w r) st =
    EvRespond (upload_failed undefined_path_message) :: map EvRegister nested_routes /\
  new_events (upload_catch undefined_path_message) st =
    [EvRespond (upload_failed undefined_path_message)] /\
  status (upload_failed undefined_path_message) = 500%N /\
  songs (after (upload_route w r) st) = songs st /\
  files (after (upload_route w r) st) = files st.
Proof.
  intros Hf. unfold new_events, after.
  unfold_upload. rewrite Hf. unfold_monad. state_fields.
  repeat split; try tail_of_trace; reflexivity.
Qed.

(** [raised_at] describes exactly the runs in which the [try] block of an
    upload with a file part throws. *)
Lemma raised_at_iff_try_throws
    (w : world) (b : upload_body) (st : server) (f : file_part) (msg : string) :
  (exists s, raised_at w st f s msg) <->
  fst (upload_try w (Some (req_file w f)) b (store_upload w f st)) = inl msg.
Proof.
  split.
  - intros [s Hr]. unfold_upload. unfold_monad. state_fields.
    rewrite lookup_insert_eq.
    destruct Hr as [msg E | md msg E Hc Hd Hm | md msg E Hc Hd Hw | md msg E Hc Hq];
      rewrite E; unfold covers, cover_dir_ready in *; state_fields.
    + reflexivity.
    + destruct (c_picture (common md)) as [[|c rest]|]; try done.
      rewrite bool_decide_eq_false_2 by done. rewrite Hm. reflexivity.
    + destruct (c_picture (common md)) as [[|c rest]|]; try done.
      rewrite Hw.
      case_bool_decide; [|destruct Hd as [?|Hd]; [done|rewrite Hd]]; reflexivity.
    + rewrite Hq.
      destruct (c_picture (common md)) as [[|c rest]|]; try reflexivity.
      destruct Hc as [?|[Hd Hw]]; [done|]. rewrite Hw.
      case_bool_decide; [|destruct Hd as [?|Hd]; [done|rewrite Hd]]; reflexivity.
  - unfold_upload. unfold_monad. state_fields. rewrite lookup_insert_eq.
    repeat (upload_case; state_fields); intros [= <-];
      repeat match goal with
             | E : bool_decide _ = true |- _ => apply bool_decide_eq_true_1 in E
             | E : bool_decide _ = false |- _ => apply bool_decide_eq_false_1 in E
             end.
    all: unfold cover_dir_ready in *.
    1: by (exists Extraction; apply raised_extraction).
    all: first
      [ by (exists CoverDirectory; eapply raised_cover_directory; unfold covers;
            try eassumption; by simplify_option_eq)
      | by (exists CoverWrite; eapply raised_cover_write; unfold covers, cover_dir_ready;
            try eassumption; [by simplify_option_eq|by auto])
      | by (exists DatabaseInsert; eapply raised_database_insert;
            unfold covers, cover_dir_ready; try eassumption;
            first [left; by simplify_option_eq | right; by auto]) ].
Qed.

(** C3. An exception raised by tag extraction, by the creation of the
    cover directory, by the cover write or by the INSERT is caught: the
    request is answered once, with status 500, an [error] field and a
    [details] field holding the message of the exception; the songs table
    is left as it was, and the audio artifact that multer stored is still
    there. *)
Theorem C3_pipeline_failure_is_caught
    (w : world) (r : upload_request) (st : server) (f : file_part)
    (s : stage) (msg : string) :
  u_file r = Some f ->
  raised_at w st f s msg ->
  fst (upload_route w r st) = inr tt /\
  responses (new_events (upload_route w r) st) = [upload_failed msg] /\
  upload_failed msg =
    {| status := 500;
       body := JObj [("error", JStr "Upload failed"); ("details", JStr msg)] |} /\
  songs (after (upload_route w r) st) = songs st /\
  is_Some (files (after (upload_route w r) st) !! resolve (multer_path w f)).
Proof.
  intros Hf Hr. unfold new_events, after, covers, cover_dir_ready in *.
  unfold_upload. rewrite Hf. unfold_monad. state_fields.
  rewrite lookup_insert_eq.
  destruct Hr as [msg E | md msg E Hc Hd Hm | md msg E Hc Hd Hw | md msg E Hc Hq];
    rewrite E; unfold covers, cover_dir_ready in *.
  - state_fields. repeat split; try tail_of_trace; eauto.
    rewrite lookup_insert_eq. eauto.
  - destruct (c_picture (common md)) as [[|c rest]|]; cbn in Hc; try done.
    rewrite bool_decide_eq_false_2 by done. rewrite Hm. state_fields.
    repeat split; try tail_of_trace; eauto. rewrite lookup_insert_eq. eauto.
  - destruct (c_picture (common md)) as [[|c rest]|]; cbn in Hc; try done.
    rewrite Hw.
    case_bool_decide; [|destruct Hd as [?|Hd]; [done|rewrite Hd]]; state_fields.
    all: repeat split; try tail_of_trace; eauto; rewrite lookup_insert_eq; eauto.
  - rewrite Hq.
    destruct (c_picture (common md)) as [[|c rest]|]; cbn in Hc; state_fields.
    1,3: repeat split; try tail_of_trace; eauto; rewrite lookup_insert_eq; eauto.
    destruct Hc as [?|[Hd Hw]]; [done|]. rewrite Hw.
    case_bool_decide; [|destruct Hd as [?|Hd]; [done|rewrite Hd]]; state_fields.
    all: repeat split; try tail_of_trace; eauto.
    all: apply insert_keeps.
Qed.

Lemma find_upload_route (r : upload_request) (extra : list route) :
  List.find (route_matches (Upload r)) (top_level_routes ++ extra) =
  Some {| r_method := POST; r_path := "/api/upload/song"; r_handler := H_upload |}.
Proof. reflexivity. Qed.

Lemma serve_upload (w : world) (r : upload_request) (st : server) (extra : list route) :
  routes st = top_level_routes ++ extra ->
  serve w (Upload r) st = upload_route w r st.
Proof.
  intros E. unfold serve, bind, gets. rewrite E, find_upload_route. reflexivity.
Qed.

Lemma after_serve_upload (w : world) (r : upload_request) (st : server) (extra : list route) :
  routes st = top_level_routes ++ extra ->
  after (serve w (Upload r)) st = after (upload_route w r) st.
Proof. intros E. unfold after. by rewrite (serve_upload w r st extra E). Qed.

Lemma uploads_routes (rs : list (world * upload_request)) (st : server) (extra : list route) :
  routes st = top_level_routes ++ extra ->
  routes (uploads rs st) =
  (top_level_routes ++ extra) ++ concat (replicate (length rs) nested_routes).
Proof.
  revert st extra. induction rs as [|[w r] rs IH]; intros st extra E; cbn [uploads].
  - cbn. by rewrite app_nil_r.
  - rewrite (IH _ (extra ++ nested_routes)).
    + cbn [length replicate concat]. by rewrite <- !app_assoc.
    + rewrite (after_serve_upload w r st extra E).
      destruct (upload_route_completes w r st) as [_ ->].
      rewrite E. by rewrite <- app_assoc.
Qed.

(** C8. The registrations of the playlists, play-history and
    recommendations routes sit in the body of the upload handler.  On a
    freshly started server none of the three is registered and such a
    request is answered 404; every invocation of the upload endpoint,
    whatever its result, appends one more handler for each of the three. *)
Theorem C8_nested_registration
    (st : server) (rs : list (world * upload_request)) :
  routes st = top_level_routes ->
  (forall x, x ∈ top_level_routes -> r_path x ∉ map r_path nested_routes) /\
  (forall w q, snd (target q) ∈ map r_path nested_routes ->
     List.find (route_matches q) (routes st) = None /\
     exists b, responses (new_events (serve w q) st) = [{| status := 404; body := b |}]) /\
  (forall w r, routes (after (serve w (Upload r)) st) = routes st ++ nested_routes) /\
  routes (uploads rs st) =
    top_level_routes ++ concat (replicate (length rs) nested_routes).
Proof.
  intros E. split; [|split; [|split]].
  - intros x Hx.
    repeat (apply elem_of_cons in Hx as [->|Hx]); [..|by apply elem_of_nil in Hx];
      cbn; intros Hin;
      repeat (apply elem_of_cons in Hin as [Hin|Hin]; [discriminate|]);
      by apply elem_of_nil in Hin.
  - intros w q Hq. rewrite E.
    destruct q; cbn in Hq;
      try (exfalso; repeat (apply elem_of_cons in Hq as [Hq|Hq]; [discriminate|]);
           by apply elem_of_nil in Hq).
    all: split; [reflexivity|].
    all: unfold new_events, after, serve; unfold_monad; rewrite E.
    all: eexists; cbn; tail_of_trace; reflexivity.
  - intros w r. rewrite (after_serve_upload w r st []) by (by rewrite app_nil_r).
    apply upload_route_completes.
  - rewrite (uploads_routes rs st []) by (by rewrite app_nil_r). by rewrite app_nil_r.
Qed.


(** With a file part, readable tags and a cover step that does not throw,
    the upload sends exactly one INSERT. *)
Lemma upload_reaches_insert
    (w : world) (r : upload_request) (st : server) (f : file_part) (md : metadata) :
  u_file r = Some f ->
  parseFile (payload f) = inr md ->
  covers md = [] \/ (cover_dir_ready w st /\ write_fault w = None) ->
  exists row, queries (new_events (upload_route w r) st) = [InsertSong row].
Proof.
  intros Hf Hp Hc. unfold new_events, after, covers, cover_dir_ready in *.
  unfold_upload. rewrite Hf. unfold_monad. state_fields.
  rewrite lookup_insert_eq, Hp. state_fields.
  destruct (c_picture (common md)) as [[|c rest]|] eqn:Epic.
  1,3: destruct (db_fault w 0); state_fields; tail_of_trace; eauto.
  destruct Hc as [?|[Hd Hw]]; [done|]. rewrite Hw.
  case_bool_decide; [|destruct Hd as [?|Hd]; [done|rewrite Hd]];
    destruct (db_fault w 0); state_fields; tail_of_trace; eauto.
Qed.


(** C2. After a successful upload the new song row has a thumbnail exactly
    when the tags carried at least one cover.  With covers, one file is
    written during the request, with the bytes of the first cover, and its
    relative path is the thumbnail: afterwards the file system is the one
    before the request plus the audio artifact and that one cover file,
    which holds the bytes of the first cover.  Without a cover no cover file
    is written (the file system gains the audio artifact only) and the
    thumbnail is absent, which is not the empty string. *)
Theorem C2_thumbnail_iff_cover
    (w : world) (r : upload_request) (st : server) :
  upload_ok ∈ responses (new_events (upload_route w r) st) ->
  exists f md row,
    u_file r = Some f /\
    parseFile (payload f) = inr md /\
    songs (after (upload_route w r) st) = songs st ++ [(song_seq st, row)] /\
    (is_Some (s_thumbnail row) <-> covers md <> []) /\
    s_thumbnail row <> Some EmptyString /\
    match covers md with
    | cover :: _ =>
        let thumbnailPath :=
          "uploads/covers/" +:+ cover_file_name w (Path.name (originalname f)) in
        s_thumbnail row = Some thumbnailPath /\
        cover_writes (new_events (upload_route w r) st) =
          [(Path.join dirname thumbnailPath, pic_data cover)] /\
        files (after (upload_route w r) st) !! resolve (Path.join dirname thumbnailPath) =
          Some (pic_data cover) /\
        files (after (upload_route w r) st) =
          <[resolve (Path.join dirname thumbnailPath) := pic_data cover]>
            (<[resolve (multer_path w f) := payload f]> (files st))
    | [] =>
        s_thumbnail row = None /\
        cover_writes (new_events (upload_route w r) st) = [] /\
        files (after (upload_route w r) st) =
          <[resolve (multer_path w f) := payload f]> (files st)
    end.
Proof.
  intros Hq. unfold new_events, after, covers in *.
  unfold_upload. unfold_monad.
  destruct (u_file r) as [f|] eqn:Hf; state_fields.
  2: { revert Hq. tail_of_trace. intros Hq.
       apply list_elem_of_singleton in Hq. discriminate. }
  rewrite lookup_insert_eq in *.
  exists f. destruct (parseFile (payload f)) as [msg|md] eqn:Hp; state_fields.
  { revert Hq. tail_of_trace. intros Hq.
    apply list_elem_of_singleton in Hq. discriminate. }
  exists md. unfold covers. revert Hq.
  repeat (upload_case; state_fields); tail_of_trace; intros Hq;
    try (apply list_elem_of_singleton in Hq; discriminate).
  all: eexists; split; [done|]; split; [done|]; split; [reflexivity|].
  all: cbn [s_thumbnail].
  all: split; [split; [intros [? ?]|intros ?]; by eauto|].
  all: split; [done|].
  all: repeat split; try reflexivity; apply lookup_insert_eq.
Qed.

End Facts.

(** ** Artifact names *)

Section Naming.

Lemma string_of_uint_digits (d : Decimal.uint) :
  all_digits (NilEmpty.string_of_uint d) = true.
Proof. induction d; cbn; auto. Qed.

Lemma show_digits (n : N) : all_digits (JS.show n) = true.
Proof.
  unfold JS.show, NilZero.string_of_uint.
  destruct (N.to_uint n); try reflexivity; apply string_of_uint_digits.
Qed.

Lemma to_uint_nonnil (n : N) : N.to_uint n <> Decimal.Nil.
Proof.
  destruct n as [|p]; cbn; [discriminate|].
  apply DecimalPos.Unsigned.to_uint_nonnil.
Qed.

Lemma show_inj (a b : N) : JS.show a = JS.show b -> a = b.
Proof.
  intros E. apply DecimalN.Unsigned.to_uint_inj.
  assert (Some (N.to_uint a) = Some (N.to_uint b)) as [= ->]; [|reflexivity].
  rewrite <- (NilZero.usu (N.to_uint a)) by apply to_uint_nonnil.
  rewrite <- (NilZero.usu (N.to_uint b)) by apply to_uint_nonnil.
  unfold JS.show in E. by rewrite E.
Qed.

(** A run of digits followed by a dash splits in one way only. *)
Lemma dash_split (s1 s2 n1 n2 : string) :
  all_digits s1 = true -> all_digits s2 = true ->
  s1 +:+ "-" +:+ n1 = s2 +:+ "-" +:+ n2 -> s1 = s2 /\ n1 = n2.
Proof.
  revert s2. induction s1 as [|a s1 IH]; intros [|b s2] D1 D2 E; cbn in *.
  - by simplify_eq.
  - by simplify_eq.
  - by simplify_eq.
  - injection E as -> E.
    apply andb_prop in D1 as [_ D1]. apply andb_prop in D2 as [_ D2].
    destruct (IH s2 D1 D2 E) as [-> ->]. done.
Qed.


Context `{Platform}.


(** What is in the file system before an upload is still there after it. *)
Lemma upload_keeps_files (w : world) (r : upload_request) (st : server) (p : string) :
  is_Some (files st !! p) -> is_Some (files (after (upload_route w r) st) !! p).
Proof.
  intros Hp. unfold after. unfold_upload. unfold_monad.
  destruct (u_file r) as [f|]; state_fields; [|done].
  rewrite lookup_insert_eq.
  repeat (upload_case; state_fields);
    rewrite ?lookup_insert_is_Some'; auto.
Qed.


End Naming.

(** ** Login *)

Section Login.

Context `{Platform}.

Lemma users_emit (e : event) (st : server) : users (emit e st) = users st.
Proof. reflexivity. Qed.

Ltac unfold_login :=
  unfold new_events, after, login_handler, pool_query, bcrypt_compare_js,
    matching_users in *.

(** C5. A login whose email selects no user, or whose password does not
    verify against the hash of the selected user, is answered once, with
    status 401 and a body that holds an [error] message and nothing else:
    no id, no email, no hash. *)
Theorem C5_login_rejected
    (w : world) (c : credentials) (st : server) :
  db_fault w 0 = None ->
  (matching_users (email c) st = [] \/
   exists u others pw,
     matching_users (email c) st = u :: others /\
     password c = Some pw /\
     bcrypt_compare pw (u_password u) = false) ->
  exists msg,
    responses (new_events (login_handler w c) st) =
      [{| status := 401; body := JObj [("error", JStr msg)] |}] /\
    msg ∈ ["User not found"; "Invalid password"] /\
    json_keys (JObj [("error", JStr msg)]) = ["error"].
Proof.
  intros Hdb [Hrows | (u & others & pw & Hrows & Hpw & Hbad)];
    unfold_login; unfold_monad; rewrite Hdb; state_fields; rewrite users_emit, Hrows.
  - exists "User not found". state_fields. tail_of_trace.
    repeat split. apply list_elem_of_here.
  - exists "Invalid password". rewrite Hpw, Hbad. cbn [negb]. state_fields. tail_of_trace.
    repeat split. apply list_elem_of_further, list_elem_of_here.
Qed.

(** C6. A login whose email selects a user and whose password verifies
    against that user's hash is answered once, with status 200 and the body
    [{user: {id, email}}] of that user; no key of the body is [password]
    and the body has no other field that could carry the password or the
    hash. *)
Theorem C6_login_accepted
    (w : world) (c : credentials) (st : server)
    (u : user) (others : list user) (pw : string) :
  db_fault w 0 = None ->
  matching_users (email c) st = u :: others ->
  password c = Some pw ->
  bcrypt_compare pw (u_password u) = true ->
  let answer :=
    JObj [("user", JObj [("id", JNum (inject_Z (u_id u)));
                         ("email", json_ostring (u_email u))])] in
  responses (new_events (login_handler w c) st) = [{| status := 200; body := answer |}] /\
  u ∈ users st /\
  u_email u = email c /\
  json_keys answer = ["user"; "id"; "email"] /\
  "password" ∉ json_keys answer.
Proof.
  intros Hdb Hrows Hpw Hok answer. split; [|split; [|split; [|split]]].
  - unfold_login; unfold_monad; rewrite Hdb; state_fields.
    rewrite users_emit, Hrows, Hpw, Hok. cbn [negb]. state_fields. tail_of_trace.
    reflexivity.
  - assert (Hin : In u (matching_users (email c) st)) by (rewrite Hrows; left; done).
    apply filter_In in Hin as [Hin _]. by apply list_elem_of_In.
  - assert (Hin : In u (matching_users (email c) st)) by (rewrite Hrows; left; done).
    apply filter_In in Hin as [_ Heq]. unfold sql_eq_str in Heq.
    destruct (u_email u) as [a|], (email c) as [b|]; try discriminate.
    apply String.eqb_eq in Heq. by subst.
  - subst answer. cbn. destruct (u_email u); reflexivity.
  - subst answer. cbn. destruct (u_email u); cbn; intros Hin;
      repeat (apply elem_of_cons in Hin as [Hin|Hin]; [discriminate|]);
      by apply elem_of_nil in Hin.
Qed.

End Login.

(** ** Recommendations *)

Section Recommendations.

Context `{Platform}.

Lemma Set_add_elem (s : list string) (x y : string) :
  y ∈ JS.Set_add s x <-> y ∈ s \/ y = x.
Proof.
  unfold JS.Set_add. destruct (existsb (String.eqb x) s) eqn:E.
  - split; [auto|]. intros [?| ->]; [done|].
    apply existsb_exists in E as (z & Hz & Ez).
    apply String.eqb_eq in Ez as ->. by apply list_elem_of_In.
  - rewrite elem_of_app, list_elem_of_singleton. tauto.
Qed.

Lemma Set_add_NoDup (s : list string) (x : string) :
  NoDup s -> NoDup (JS.Set_add s x).
Proof.
  intros Hs. unfold JS.Set_add. destruct (existsb (String.eqb x) s) eqn:E; [done|].
  apply NoDup_app. split; [done|]. split; [|apply NoDup_singleton].
  intros y Hy Hx. apply list_elem_of_singleton in Hx as ->.
  assert (existsb (String.eqb x) s = true); [|congruence].
  apply existsb_exists. exists x. split; [by apply list_elem_of_In|apply String.eqb_refl].
Qed.

Lemma fold_Set_add (xs acc : list string) :
  NoDup acc ->
  NoDup (fold_left JS.Set_add xs acc) /\
  (forall y, y ∈ fold_left JS.Set_add xs acc <-> y ∈ acc \/ y ∈ xs).
Proof.
  revert acc. induction xs as [|x xs IH]; intros acc Hacc; cbn.
  - split; [done|]. intros y. rewrite elem_of_nil. tauto.
  - destruct (IH (JS.Set_add acc x) (Set_add_NoDup acc x Hacc)) as [Hnd Hin].
    split; [done|]. intros y. rewrite Hin, Set_add_elem, elem_of_cons. tauto.
Qed.

#[local] Instance later_first_total : Total later_first.
Proof. intros a b. unfold later_first. lia. Qed.

(** C7. The recommendations route sends two queries.  The parameter of
    the second is the list of moods of the rows of the first (the user's
    plays joined with their songs, latest first, three at most) with
    duplicates removed: it has no duplicates and the same members.  For the
    moods happy, sad, happy it is happy, sad. *)
Theorem C7_distinct_recent_moods
    (w : world) (userId : option Z) (st : server) :
  db_fault w 0 = None ->
  let recent := recent_moods st userId in
  let moods := JS.Set_of recent in
  queries (new_events (recommendations_handler w userId) st) =
    [SelectRecentMoods userId; SelectSongsByMood moods] /\
  NoDup moods /\
  (forall m, m ∈ moods <-> m ∈ recent) /\
  (exists rows,
     recent = map snd (take 3 rows) /\
     rows ≡ₚ history_join st userId /\
     Sorted later_first rows) /\
  (length recent <= 3)%nat /\
  (recent = ["happy"; "sad"; "happy"] -> moods = ["happy"; "sad"]).
Proof.
  intros Hdb recent moods.
  destruct (fold_Set_add recent [] (NoDup_nil_2 : NoDup [])) as [Hnd Hin].
  split; [|split; [|split; [|split; [|split]]]].
  - unfold new_events, after, recommendations_handler, pool_query.
    unfold_monad. rewrite Hdb. state_fields.
    destruct (db_fault w 1); state_fields; tail_of_trace; reflexivity.
  - exact Hnd.
  - intros m. unfold moods, JS.Set_of. rewrite Hin, elem_of_nil. tauto.
  - exists (merge_sort later_first (history_join st userId)).
    split; [reflexivity|]. split; [apply merge_sort_Permutation|].
    apply Sorted_merge_sort. apply _.
  - unfold recent, recent_moods. rewrite length_map, length_take. lia.
  - intros E. unfold moods. rewrite E. reflexivity.
Qed.

End Recommendations.

(** ** The theorems at sample inputs *)

Section Samples.

Import Sample.

#[local] Existing Instance platform.

Example name_track : Path.name "track.mp3" = "track".
Proof. reflexivity. Qed.

Example name_two_dots : Path.name "a.tar.gz" = "a.tar".
Proof. reflexivity. Qed.

Example name_hidden : Path.name ".bashrc" = ".bashrc".
Proof. reflexivity. Qed.

Example name_no_extension : Path.name "README" = "README".
Proof. reflexivity. Qed.

Example name_of_last_segment : Path.name "/music/live/track.mp3/" = "track".
Proof. reflexivity. Qed.

Example show_milliseconds : JS.show 1700000000000 = "1700000000000".
Proof. reflexivity. Qed.

Example set_keeps_first_occurrences :
  JS.Set_of ["sad"; "happy"; "sad"; "calm"; "happy"] = ["sad"; "happy"; "calm"].
Proof. reflexivity. Qed.



(** An artifact with two covers and one with none. *)
Lemma C2_cover_and_no_cover :
  upload_ok ∈ responses (new_events (upload_route calm (upload_of [Byte.x01])) boot) /\
  upload_ok ∈ responses (new_events (upload_route calm (upload_of [Byte.x00])) boot) /\
  cover_writes (new_events (upload_route calm (upload_of [Byte.x01])) boot) =
    [("/srv/audix/uploads/covers/1700000000001-track-cover.jpg", [Byte.x01])] /\
  files (after (upload_route calm (upload_of [Byte.x01])) boot)
    !! "/srv/audix/uploads/covers/1700000000001-track-cover.jpg" = Some [Byte.x01] /\
  cover_writes (new_events (upload_route calm (upload_of [Byte.x00])) boot) = [] /\
  files (after (upload_route calm (upload_of [Byte.x00])) boot) =
    {[ "/srv/audix/uploads/songs/1700000000000-track.mp3" := [Byte.x00] ]}.
Proof.
  assert (H1 : upload_ok
                 ∈ responses (new_events (upload_route calm (upload_of [Byte.x01])) boot)).
  { vm_compute. apply list_elem_of_here. }
  assert (H0 : upload_ok
                 ∈ responses (new_events (upload_route calm (upload_of [Byte.x00])) boot)).
  { vm_compute. apply list_elem_of_here. }
  split; [exact H1|]. split; [exact H0|].
  destruct (C2_thumbnail_iff_cover calm (upload_of [Byte.x01]) boot H1)
    as (f1 & md1 & row1 & Hf1 & Hp1 & _ & _ & _ & Hc1).
  injection Hf1 as <-. injection Hp1 as <-.
  destruct Hc1 as (_ & Hwrites1 & Hfile1 & _).
  destruct (C2_thumbnail_iff_cover calm (upload_of [Byte.x00]) boot H0)
    as (f0 & md0 & row0 & Hf0 & Hp0 & _ & _ & _ & Hc0).
  injection Hf0 as <-. injection Hp0 as <-.
  destruct Hc0 as (_ & Hwrites0 & Hfiles0).
  split; [exact Hwrites1|]. split; [exact Hfile1|]. split; [exact Hwrites0|].
  exact Hfiles0.
Defined.

(** One failing run per stage. *)
Lemma C3_each_stage_caught :
  responses (new_events (upload_route calm (upload_of [])) boot) =
    [upload_failed "Failed to determine audio format"] /\
  responses (new_events
               (upload_route (with_faults (Some "EACCES") None (fun _ => None))
                  (upload_of [Byte.x01])) boot) =
    [upload_failed "EACCES"] /\
  responses (new_events
               (upload_route (with_faults None (Some "ENOSPC") (fun _ => None))
                  (upload_of [Byte.x01])) boot) =
    [upload_failed "ENOSPC"] /\
  responses (new_events
               (upload_route (with_faults None None (fun _ => Some "connection refused"))
                  (upload_of [Byte.x00])) boot) =
    [upload_failed "connection refused"].
Proof.
  split; [|split; [|split]].
  - apply (C3_pipeline_failure_is_caught calm (upload_of []) boot (track [])
             Extraction "Failed to determine audio format"); [reflexivity|].
    apply raised_extraction. reflexivity.
  - apply (C3_pipeline_failure_is_caught _ (upload_of [Byte.x01]) boot (track [Byte.x01])
             CoverDirectory "EACCES"); [reflexivity|].
    apply (raised_cover_directory _ _ _ tagged); [reflexivity|discriminate| |reflexivity].
    apply not_elem_of_empty.
  - apply (C3_pipeline_failure_is_caught _ (upload_of [Byte.x01]) boot (track [Byte.x01])
             CoverWrite "ENOSPC"); [reflexivity|].
    apply (raised_cover_write _ _ _ tagged); [reflexivity|discriminate| |reflexivity].
    right. reflexivity.
  - apply (C3_pipeline_failure_is_caught _ (upload_of [Byte.x00]) boot (track [Byte.x00])
             DatabaseInsert "connection refused"); [reflexivity|].
    apply (raised_database_insert _ _ _ no_tags); [reflexivity| |reflexivity].
    left. reflexivity.
Defined.



(** An unknown email, and a known email with a wrong password. *)
Lemma C5_sample_rejections :
  (exists msg,
     responses (new_events (login_handler calm stranger) boot) =
       [{| status := 401; body := JObj [("error", JStr msg)] |}]) /\
  (exists msg,
     responses (new_events (login_handler calm mallory) boot) =
       [{| status := 401; body := JObj [("error", JStr msg)] |}]).
Proof.
  split.
  - destruct (C5_login_rejected calm stranger boot) as (msg & Hr & _).
    + reflexivity.
    + left. reflexivity.
    + exists msg. exact Hr.
  - destruct (C5_login_rejected calm mallory boot) as (msg & Hr & _).
    + reflexivity.
    + right. eexists _, _, "guess". repeat split; reflexivity.
    + exists msg. exact Hr.
Defined.

(** The known email with its password. *)
Lemma C6_sample_login :
  responses (new_events (login_handler calm alice) boot) =
    [{| status := 200;
        body := JObj [("user", JObj [("id", JNum 1); ("email", JStr "a@b.com")])] |}].
Proof.
  apply (C6_login_accepted calm alice boot
           {| u_id := 1; u_email := Some "a@b.com"; u_password := "salt$pw123" |}
           [] "pw123"); reflexivity.
Defined.

(** The listener whose last three plays are happy, sad, happy. *)
Lemma C7_happy_sad_happy :
  recent_moods listener (Some 7%Z) = ["happy"; "sad"; "happy"] /\
  queries (new_events (recommendations_handler calm (Some 7%Z)) listener) =
    [SelectRecentMoods (Some 7%Z); SelectSongsByMood ["happy"; "sad"]].
Proof.
  split; [reflexivity|].
  destruct (C7_distinct_recent_moods calm (Some 7%Z) listener eq_refl)
    as (Hq & _ & _ & _ & _ & Hex).
  rewrite Hq, (Hex eq_refl). reflexivity.
Defined.

(** Two uploads leave two copies of each nested route. *)
Lemma C8_sample_registrations :
  routes boot = top_level_routes /\
  routes (uploads same_millisecond boot) =
    top_level_routes ++ nested_routes ++ nested_routes.
Proof.
  split; [reflexivity|].
  apply (C8_nested_registration boot same_millisecond). reflexivity.
Defined.

(** An upload request without a file part. *)
Lemma C9_sample_no_file :
  u_file no_file = None /\
  new_events (upload_route calm no_file) boot =
    EvRespond (upload_failed undefined_path_message) :: map EvRegister nested_routes.
Proof.
  split; [reflexivity|].
  apply (C9_missing_file_is_a_caught_failure calm no_file boot). reflexivity.
Defined.

End Samples.

(** ** Further properties of the routes *)

Ltac unfold_routes :=
  unfold signup_handler, login_handler, playlists_handler, play_handler,
    recommendations_handler, bcrypt_hash_js, bcrypt_compare_js, pool_query in *.

Ltac table_fields :=
  cbn [fst snd emit set_files set_dirs set_routes add_song add_user add_play
       files dirs routes users user_seq songs song_seq playlists history trace
       mf_path mf_originalname negb] in *.

Ltac route_case :=
  match goal with
  | |- context [match db_fault ?w ?k with _ => _ end] =>
      destruct (db_fault w k) as [?msg|] eqn:?
  | |- context [match password ?c with _ => _ end] =>
      destruct (password c) as [?pw|] eqn:?
  | |- context [match matching_users ?e ?s with _ => _ end] =>
      destruct (matching_users e s) as [|?u ?others] eqn:?
  | |- context [if negb ?b then _ else _] =>
      destruct b eqn:?
  end.

Ltac frame_done :=
  repeat split; try reflexivity;
  intros; exfalso;
  match goal with
  | Hq : forall _, _ <> _ |- _ => by eapply Hq
  | Hq : forall _ _, _ <> _ |- _ => by eapply Hq
  end.

Section UploadMore.

Context `{Platform}.

(** X1. The upload route answers every request exactly once: with the
    success body when, and only when, one row was appended to the songs
    table, and otherwise with the failure body and an unchanged table. *)
Theorem upload_answers_once (w : world) (r : upload_request) (st : server) :
  exists resp,
    responses (new_events (upload_route w r) st) = [resp] /\
    ((resp = upload_ok /\
      exists row, songs (after (upload_route w r) st) = songs st ++ [(song_seq st, row)] /\
                  queries (new_events (upload_route w r) st) = [InsertSong row]) \/
     (exists msg, resp = upload_failed msg /\
                  songs (after (upload_route w r) st) = songs st)).
Proof.
  unfold new_events, after. unfold_upload. unfold_monad.
  destruct (u_file r) as [f|]; state_fields.
  2: { tail_of_trace. eexists. split; [reflexivity|]. right. eauto. }
  rewrite lookup_insert_eq.
  repeat (upload_case; state_fields); tail_of_trace;
    eexists; (split; [reflexivity|]);
    first [ right; eexists; split; reflexivity
          | left; split; [reflexivity|]; eexists; split; reflexivity ].
Qed.


(** A request other than an upload leaves the songs and the files alone. *)
Lemma other_routes_keep_artifacts (w : world) (q : request) (st : server) :
  (forall u, q <> Upload u) ->
  songs (after (serve w q) st) = songs st /\
  files (after (serve w q) st) = files st.
Proof.
  intros Hq. unfold after, serve. unfold_monad. table_fields.
  destruct (List.find (route_matches q) (routes st)) as [x|]; [|by table_fields].
  destruct (r_handler x), q; cbn [run_handler];
    try (unfold ret; by table_fields); try (exfalso; by eapply Hq);
    unfold_routes; unfold_monad; table_fields;
    repeat (route_case; table_fields); by split.
Qed.

(** X7. Which route may change what: no route changes the playlists; only
    signup changes the users, only play the history, and only upload the
    songs, the file system and the router stack. *)
Theorem serve_frame (w : world) (q : request) (st : server) :
  playlists (after (serve w q) st) = playlists st /\
  ((forall c, q <> Signup c) ->
     users (after (serve w q) st) = users st) /\
  ((forall a b, q <> Play a b) ->
     history (after (serve w q) st) = history st) /\
  ((forall u, q <> Upload u) ->
     songs (after (serve w q) st) = songs st /\
     files (after (serve w q) st) = files st /\
     dirs (after (serve w q) st) = dirs st /\
     routes (after (serve w q) st) = routes st).
Proof.
  unfold after, serve. unfold_monad. table_fields.
  destruct (List.find (route_matches q) (routes st)) as [x|];
    [|table_fields; frame_done].
  destruct (r_handler x), q; cbn [run_handler];
    try (unfold ret; table_fields; frame_done).
  - unfold_routes. unfold_monad. table_fields.
    repeat (route_case; table_fields); frame_done.
  - unfold_routes. unfold_monad. table_fields.
    repeat (route_case; table_fields); frame_done.
  - unfold_upload. unfold_monad.
    destruct (u_file u) as [f|]; table_fields.
    + rewrite lookup_insert_eq.
      repeat (upload_case; table_fields); frame_done.
    + frame_done.
  - unfold_routes. unfold_monad. table_fields.
    repeat (route_case; table_fields); frame_done.
  - unfold_routes. unfold_monad. table_fields.
    repeat (route_case; table_fields); frame_done.
  - unfold_routes. unfold_monad. table_fields.
    repeat (route_case; table_fields); frame_done.
Qed.


Lemma upload_route_songs_stored (w : world) (r : upload_request) (st : server) :
  songs_stored st -> songs_stored (after (upload_route w r) st).
Proof.
  intros Hinv id row. unfold after. unfold_upload. unfold_monad.
  destruct (u_file r) as [f|]; state_fields; [|by apply Hinv].
  rewrite lookup_insert_eq.
  repeat (upload_case; state_fields); intros Hin;
    try (apply elem_of_app in Hin as [Hin|Hin];
         [|apply list_elem_of_singleton in Hin; injection Hin as -> ->;
           cbn [s_filepath]]);
    rewrite ?lookup_insert_is_Some'; eauto 6.
Qed.

Lemma serve_keeps_songs_stored (w : world) (q : request) (st : server) :
  songs_stored st -> songs_stored (after (serve w q) st).
Proof.
  intros Hinv.
  assert (Hsame : (forall u, q <> Upload u) -> songs_stored (after (serve w q) st)).
  { intros Hq. destruct (other_routes_keep_artifacts w q st Hq) as [Hs Hfiles].
    unfold songs_stored. by rewrite Hs, Hfiles. }
  destruct q as [c|c|u|uid|uid sid|uid]; try (apply Hsame; discriminate).
  unfold after, serve. unfold_monad. state_fields.
  destruct (List.find (route_matches (Upload u)) (routes st)) as [x|]; [|by apply Hinv].
  destruct (r_handler x); cbn [run_handler]; try by apply Hinv.
  by apply upload_route_songs_stored.
Qed.


(** X6. Every song row names a stored artifact, and every run of requests
    keeps it so: if the [filepath] of each row, taken from the working
    directory, is a file of the file system, it still is after any
    sequence of requests, uploads that fail half-way included. *)
Theorem songs_stay_stored (qs : list (world * request)) (st : server) :
  songs_stored st -> songs_stored (serve_all qs st).
Proof.
  revert st. induction qs as [|[w q] qs IH]; intros st Hinv; cbn [serve_all].
  - exact Hinv.
  - apply IH. by apply serve_keeps_songs_stored.
Qed.

(** X3. The cover directory is created on demand: an upload that writes a
    cover leaves the directory in place, and asks for its creation exactly
    when it was not there before. *)
Theorem cover_directory_on_demand
    (w : world) (r : upload_request) (st : server) (p : string) (d : Buffer) :
  (p, d) ∈ cover_writes (new_events (upload_route w r) st) ->
  resolve cover_dir ∈ dirs (after (upload_route w r) st) /\
  mkdir_calls (new_events (upload_route w r) st) =
    if bool_decide (resolve cover_dir ∈ dirs st) then [] else [cover_dir].
Proof.
  unfold new_events, after. unfold_upload. unfold_monad.
  destruct (u_file r) as [f|]; state_fields.
  2: { tail_of_trace. intros Hin. by apply elem_of_nil in Hin. }
  rewrite lookup_insert_eq.
  repeat (upload_case; state_fields); tail_of_trace; intros Hin;
    try (by apply elem_of_nil in Hin);
    unfold mkdir_calls; cbn [omap list_omap];
    (split; [|reflexivity]).
  all: clear Hin.
  all: match goal with
       | E : bool_decide _ = true |- _ => by apply bool_decide_eq_true_1 in E
       | _ => set_solver
       end.
Qed.

(** X4. A cover that was written stays on disk with the bytes of the first
    embedded picture, whether or not the INSERT that follows succeeds: on
    success the new row's thumbnail names it, on failure no row does. *)
Theorem cover_written_and_kept
    (w : world) (r : upload_request) (st : server) (f : file_part)
    (md : metadata) (cover : picture) (others : list picture) :
  u_file r = Some f ->
  parseFile (payload f) = inr md ->
  c_picture (common md) = Some (cover :: others) ->
  cover_dir_ready w st ->
  write_fault w = None ->
  let thumbnailPath :=
    "uploads/covers/" +:+ cover_file_name w (Path.name (originalname f)) in
  files (after (upload_route w r) st) !! resolve (Path.join dirname thumbnailPath) =
    Some (pic_data cover) /\
  match db_fault w 0 with
  | None =>
      exists row,
        songs (after (upload_route w r) st) = songs st ++ [(song_seq st, row)] /\
        s_thumbnail row = Some thumbnailPath
  | Some msg =>
      songs (after (upload_route w r) st) = songs st /\
      responses (new_events (upload_route w r) st) = [upload_failed msg]
  end.
Proof.
  intros Hf Hp Hc Hd Hw thumbnailPath. subst thumbnailPath.
  unfold new_events, after, cover_dir_ready in *. unfold_upload. rewrite Hf.
  unfold_monad. state_fields. rewrite lookup_insert_eq, Hp. state_fields.
  rewrite Hc, Hw.
  case_bool_decide; [|destruct Hd as [?|Hd]; [done|rewrite Hd]];
    destruct (db_fault w 0); state_fields;
    (split; [apply lookup_insert_eq|]); try tail_of_trace; eauto.
Qed.

(** The row an upload sends to the INSERT, up to its thumbnail. *)
Lemma inserted_row (w : world) (r : upload_request) (st : server) (row : song_row) :
  InsertSong row ∈ queries (new_events (upload_route w r) st) ->
  exists f md t,
    u_file r = Some f /\
    parseFile (payload f) = inr md /\
    row = {| s_title := resolve_title md (u_body r) (Path.name (originalname f));
             s_artist := resolve_artist md (u_body r);
             s_album := resolve_album md (u_body r);
             s_mood := JS.or_str (b_mood (u_body r)) EmptyString;
             s_genre := resolve_genre md (u_body r);
             s_language := b_language (u_body r);
             s_filepath := multer_path w f;
             s_user_id := b_userId (u_body r);
             s_bitrate := JS.or_zero (f_bitrate (format md));
             s_duration := JS.or_zero (f_duration (format md));
             s_thumbnail := t |}.
Proof.
  intros Hq. unfold new_events, after in Hq. unfold_upload. unfold_monad.
  destruct (u_file r) as [f|] eqn:Hf; state_fields.
  2: { exfalso. revert Hq. tail_of_trace. intros Hq. by apply elem_of_nil in Hq. }
  rewrite lookup_insert_eq in Hq. exists f.
  destruct (parseFile (payload f)) as [msg|md] eqn:Hp; state_fields.
  { exfalso. revert Hq. tail_of_trace. intros Hq. by apply elem_of_nil in Hq. }
  exists md.
  assert (Hrow : exists t, row =
    {| s_title := resolve_title md (u_body r) (Path.name (originalname f));
       s_artist := resolve_artist md (u_body r);
       s_album := resolve_album md (u_body r);
       s_mood := JS.or_str (b_mood (u_body r)) EmptyString;
       s_genre := resolve_genre md (u_body r);
       s_language := b_language (u_body r);
       s_filepath := multer_path w f;
       s_user_id := b_userId (u_body r);
       s_bitrate := JS.or_zero (f_bitrate (format md));
       s_duration := JS.or_zero (f_duration (format md));
       s_thumbnail := t |}).
  { revert Hq. repeat (upload_case; state_fields); tail_of_trace; intros Hq;
      try (by apply elem_of_nil in Hq);
      apply list_elem_of_singleton in Hq; injection Hq as ->; eauto. }
  destruct Hrow as [t ->]. eauto.
Qed.

Lemma or_zero_spec (n : option Q) :
  match n with
  | Some q => JS.or_zero n == q
  | None => JS.or_zero n = 0%Q
  end.
Proof.
  destruct n as [q|]; [|reflexivity]. unfold JS.or_zero.
  destruct (Qeq_bool q 0) eqn:E; [|reflexivity].
  apply Qeq_bool_iff in E. by symmetry.
Qed.

(** X5. The columns of an inserted row that no tag decides: the mood is the
    client's or the empty string, the language and the user id are the
    client's as they came (a missing user id does not stop the upload and
    is stored as NULL), the file path is the relative path multer chose, and
    bitrate and duration are the extractor's numbers or 0. *)
Theorem client_columns_pass_through
    (w : world) (r : upload_request) (st : server) (row : song_row) :
  InsertSong row ∈ queries (new_events (upload_route w r) st) ->
  exists f md,
    u_file r = Some f /\
    parseFile (payload f) = inr md /\
    s_mood row = default EmptyString (b_mood (u_body r)) /\
    s_language row = b_language (u_body r) /\
    s_user_id row = b_userId (u_body r) /\
    s_filepath row = multer_path w f /\
    match f_bitrate (format md) with
    | Some q => s_bitrate row == q
    | None => s_bitrate row = 0%Q
    end /\
    match f_duration (format md) with
    | Some q => s_duration row == q
    | None => s_duration row = 0%Q
    end.
Proof.
  intros Hq. destruct (inserted_row w r st row Hq) as (f & md & t & Hf & Hp & ->).
  exists f, md. cbn [s_mood s_language s_user_id s_filepath s_bitrate s_duration].
  repeat split; try done.
  - unfold JS.or_str. destruct (b_mood (u_body r)) as [m|]; [|reflexivity].
    destruct (String.eqb m EmptyString) eqn:E; [|reflexivity].
    apply String.eqb_eq in E. by subst.
  - apply or_zero_spec.
  - apply or_zero_spec.
Qed.

End UploadMore.

Section AccountsMore.

Context `{Platform}.

Lemma sql_eq_str_refl (e : string) : sql_eq_str (Some e) (Some e) = true.
Proof. apply String.eqb_refl. Qed.

(** What a signup with both fields does when the INSERT runs. *)
Lemma signup_run (w : world) (c : credentials) (st : server) (pw : string) :
  password c = Some pw ->
  db_fault w 0 = None ->
  signup_handler w c st =
  (inr tt,
   emit (EvRespond
           {| status := 200;
              body := JObj [("user", JObj [("id", JNum (inject_Z (user_seq st)));
                                           ("email", json_ostring (email c))])] |})
     (add_user (email c) (bcrypt_hash pw (salt w))
        (emit (EvQuery (InsertUser (email c) (bcrypt_hash pw (salt w)))) st))).
Proof.
  intros Hpw Hdb. unfold_routes. unfold_monad. rewrite Hpw, Hdb. reflexivity.
Qed.

(** What a login does when the lookup runs and selects a row. *)
Lemma login_run (w : world) (c : credentials) (st : server)
    (u : user) (others : list user) (pw : string) :
  db_fault w 0 = None ->
  matching_users (email c) st = u :: others ->
  password c = Some pw ->
  login_handler w c st =
  (inr tt,
   emit (EvRespond
           (if bcrypt_compare pw (u_password u)
            then {| status := 200;
                    body := JObj [("user", JObj [("id", JNum (inject_Z (u_id u)));
                                                 ("email", json_ostring (u_email u))])] |}
            else {| status := 401; body := JObj [("error", JStr "Invalid password")] |}))
     (emit (EvQuery (SelectUserByEmail (email c))) st)).
Proof.
  intros Hdb Hrows Hpw. unfold_routes. unfold_monad. rewrite Hdb. table_fields.
  change (matching_users (email c) (emit (EvQuery (SelectUserByEmail (email c))) st))
    with (matching_users (email c) st).
  rewrite Hrows, Hpw. table_fields.
  destruct (bcrypt_compare pw (u_password u)); reflexivity.
Qed.

(** X9. Signup, then login with the same credentials: when the email is
    not taken and the hasher verifies what it hashed, signup answers with a
    fresh user's id and email, stores the hash and not the password, and the
    login that follows is answered 200 with that same id and email. *)
Theorem signup_then_login
    (w1 w2 : world) (c : credentials) (st : server) (e pw : string) :
  email c = Some e ->
  password c = Some pw ->
  db_fault w1 0 = None ->
  db_fault w2 0 = None ->
  matching_users (Some e) st = [] ->
  bcrypt_compare pw (bcrypt_hash pw (salt w1)) = true ->
  let answer :=
    {| status := 200;
       body := JObj [("user", JObj [("id", JNum (inject_Z (user_seq st)));
                                    ("email", JStr e)])] |} in
  responses (new_events (signup_handler w1 c) st) = [answer] /\
  users (after (signup_handler w1 c) st) =
    users st ++ [{| u_id := user_seq st; u_email := Some e;
                    u_password := bcrypt_hash pw (salt w1) |}] /\
  responses (new_events (login_handler w2 c) (after (signup_handler w1 c) st)) = [answer].
Proof.
  intros He Hpw Hdb1 Hdb2 Hfree Hok answer. subst answer.
  pose proof (signup_run w1 c st pw Hpw Hdb1) as Hrun. rewrite He in Hrun.
  split; [|split].
  - unfold new_events, after. rewrite Hrun. table_fields. tail_of_trace. reflexivity.
  - unfold after. rewrite Hrun. reflexivity.
  - unfold after at 1. rewrite Hrun. cbn [snd json_ostring].
    match goal with |- context [new_events _ ?s] => remember s as st1 eqn:Hst1 end.
    assert (Hrows : matching_users (email c) st1 =
                    [{| u_id := user_seq st; u_email := Some e;
                        u_password := bcrypt_hash pw (salt w1) |}]).
    { rewrite He, Hst1. unfold matching_users in *. cbn [users emit add_user].
      rewrite List.filter_app, Hfree. cbn. by rewrite String.eqb_refl. }
    unfold new_events, after. rewrite (login_run w2 c st1 _ [] pw Hdb2 Hrows Hpw).
    cbn [u_password u_id u_email json_ostring]. rewrite Hok. table_fields.
    tail_of_trace. reflexivity.
Qed.

(** X11. Outside the upload route nothing catches a database error: when
    the first query of a signup, login, playlists, play or recommendations
    request is rejected, the handler's promise is rejected with the
    database's message, no response is sent, and no table changes. *)
Theorem database_error_goes_unanswered (w : world) (st : server) (msg : string) :
  db_fault w 0 = Some msg ->
  (forall c pw, password c = Some pw ->
     fst (signup_handler w c st) = inl msg /\
     responses (new_events (signup_handler w c) st) = [] /\
     users (after (signup_handler w c) st) = users st) /\
  (forall c,
     fst (login_handler w c st) = inl msg /\
     responses (new_events (login_handler w c) st) = []) /\
  (forall uid,
     fst (playlists_handler w uid st) = inl msg /\
     responses (new_events (playlists_handler w uid) st) = []) /\
  (forall uid sid,
     fst (play_handler w uid sid st) = inl msg /\
     responses (new_events (play_handler w uid sid) st) = [] /\
     history (after (play_handler w uid sid) st) = history st) /\
  (forall uid,
     fst (recommendations_handler w uid st) = inl msg /\
     responses (new_events (recommendations_handler w uid) st) = []).
Proof.
  intros Hdb. repeat split; unfold new_events, after; unfold_routes; unfold_monad;
    rewrite ?Hdb; try match goal with Hp : password _ = _ |- _ => rewrite Hp end;
    rewrite ?Hdb; table_fields; try tail_of_trace; reflexivity.
Qed.

End AccountsMore.

Section ListeningMore.

Context `{Platform}.

Lemma sql_eq_id_spec (a b : option Z) :
  sql_eq_id a b = true <-> exists z, a = Some z /\ b = Some z.
Proof.
  destruct a as [x|], b as [y|]; cbn; split; try discriminate.
  - intros E. apply Z.eqb_eq in E as ->. eauto.
  - intros (z & [= ->] & [= ->]). apply Z.eqb_refl.
  - intros (z & _ & [=]).
  - intros (z & [=] & _).
  - intros (z & [=] & _).
Qed.

(** X12. The playlists route lists the playlists whose owner is the given
    user, in table order, each as its id and name; without a user id it
    lists nothing, since no owner equals NULL. *)
Theorem playlists_of_the_user (w : world) (userId : option Z) (st : server) :
  db_fault w 0 = None ->
  exists rows,
    responses (new_events (playlists_handler w userId) st) =
      [{| status := 200; body := JArr (map json_playlist rows) |}] /\
    (forall p, p ∈ rows <->
               p ∈ playlists st /\ exists u, userId = Some u /\ p_user_id p = Some u) /\
    sublist rows (playlists st) /\
    (userId = None -> rows = []).
Proof.
  intros Hdb.
  exists (List.filter (fun p => sql_eq_id (p_user_id p) userId) (playlists st)).
  split; [|split; [|split]].
  - unfold new_events, after. unfold_routes. unfold_monad. rewrite Hdb.
    table_fields. tail_of_trace. reflexivity.
  - intros p. rewrite list_elem_of_In, filter_In, <- list_elem_of_In, sql_eq_id_spec.
    split; intros [Hin (u & E1 & E2)]; (split; [done|]); exists u; done.
  - induction (playlists st) as [|p ps IH]; cbn; [constructor|].
    destruct (sql_eq_id (p_user_id p) userId); by constructor.
  - intros ->. induction (playlists st) as [|p ps IH]; cbn; [done|].
    destruct (p_user_id p); exact IH.
Qed.

Lemma existsb_eqb_elem (m : string) (moods : list string) :
  existsb (String.eqb m) moods = true <-> m ∈ moods.
Proof.
  rewrite existsb_exists. split.
  - intros (x & Hin & E). apply String.eqb_eq in E as ->. by apply list_elem_of_In.
  - intros Hin. exists m. split; [by apply list_elem_of_In|apply String.eqb_refl].
Qed.

Lemma Set_of_elem (xs : list string) (m : string) : m ∈ JS.Set_of xs <-> m ∈ xs.
Proof.
  unfold JS.Set_of.
  destruct (fold_Set_add xs [] (NoDup_nil_2 : NoDup [])) as [_ Hin].
  rewrite Hin, elem_of_nil. tauto.
Qed.

(** X13. What the recommendations route answers when both queries run and
    the random order is a reordering: at most ten songs of the table, each
    with a mood among the moods of the user's latest three plays; all such
    songs when there are at most ten of them; and none for a user without
    plays. *)
Theorem recommendations_share_a_recent_mood
    (w : world) (userId : option Z) (st : server) :
  db_fault w 0 = None ->
  db_fault w 1 = None ->
  (forall l, shuffle w l ≡ₚ l) ->
  exists result,
    responses (new_events (recommendations_handler w userId) st) =
      [{| status := 200; body := JArr (map json_song result) |}] /\
    (length result <= 10)%nat /\
    (forall s, s ∈ result ->
               s ∈ songs st /\ s_mood (snd s) ∈ recent_moods st userId) /\
    ((length (List.filter
                (fun s => existsb (String.eqb (s_mood (snd s)))
                            (JS.Set_of (recent_moods st userId)))
                (songs st)) <= 10)%nat ->
     forall s, s ∈ songs st -> s_mood (snd s) ∈ recent_moods st userId -> s ∈ result) /\
    (recent_moods st userId = [] -> result = []).
Proof.
  intros Hdb0 Hdb1 Hperm.
  set (moods := JS.Set_of (recent_moods st userId)).
  set (candidates := List.filter
                       (fun s => existsb (String.eqb (s_mood (snd s))) moods) (songs st)).
  exists (take 10 (shuffle w candidates)).
  assert (Hcand : forall s, s ∈ candidates <->
                            s ∈ songs st /\ s_mood (snd s) ∈ recent_moods st userId).
  { intros s. unfold candidates.
    rewrite list_elem_of_In, filter_In, <- list_elem_of_In, existsb_eqb_elem.
    unfold moods. by rewrite Set_of_elem. }
  split; [|split; [|split; [|split]]].
  - unfold new_events, after. unfold_routes. unfold_monad. rewrite Hdb0.
    table_fields. rewrite Hdb1. table_fields. tail_of_trace. reflexivity.
  - rewrite length_take. lia.
  - intros s Hs. apply Hcand. rewrite <- (Hperm candidates).
    by eapply subseteq_take.
  - intros Hlen s Hin Hmood. rewrite take_ge.
    + rewrite (Hperm candidates). apply Hcand. done.
    + rewrite (Hperm candidates). exact Hlen.
  - intros Hnone.
    assert (Hempty : candidates = []).
    { apply elem_of_nil_inv. intros s Hs. apply Hcand in Hs as [_ Hs].
      rewrite Hnone in Hs. by apply elem_of_nil in Hs. }
    rewrite Hempty. pose proof (Hperm []) as Hp.
    apply Permutation_nil_r in Hp. by rewrite Hp.
Qed.


#[local] Existing Instance later_first_total.

#[local] Instance later_first_trans : Transitive later_first.
Proof. intros a b c. unfold later_first. lia. Qed.

(** In a list sorted latest first, an entry later than every other entry
    is the head. *)
Lemma latest_is_head (x : N * string) (old rows : list (N * string)) :
  rows ≡ₚ old ++ [x] ->
  Sorted later_first rows ->
  (forall y, y ∈ old -> (fst y < fst x)%N) ->
  exists rest, rows = x :: rest.
Proof.
  intros Hperm Hsorted Hlater.
  destruct rows as [|h t].
  { symmetry in Hperm. apply Permutation_nil_r in Hperm.
    by destruct old. }
  exists t. f_equal.
  assert (Hh : h ∈ old ++ [x]) by (rewrite <- Hperm; left).
  apply elem_of_app in Hh as [Hh|Hh]; [|by apply list_elem_of_singleton in Hh].
  exfalso. pose proof (Hlater h Hh) as Hlt.
  assert (Hx : x ∈ h :: t) by (rewrite Hperm; apply elem_of_app; right; left).
  apply elem_of_cons in Hx as [->|Hx]; [lia|].
  apply Sorted_StronglySorted in Hsorted; [|apply _].
  apply StronglySorted_inv in Hsorted as [_ Hall].
  rewrite Forall_forall in Hall. specialize (Hall x Hx).
  unfold later_first in Hall. lia.
Qed.

Lemma fold_Set_add_prefix (xs acc : list string) :
  exists more, fold_left JS.Set_add xs acc = acc ++ more.
Proof.
  revert acc. induction xs as [|x xs IH]; intros acc; cbn.
  - exists []. by rewrite app_nil_r.
  - destruct (IH (JS.Set_add acc x)) as [more ->]. unfold JS.Set_add.
    destruct (existsb (String.eqb x) acc); [by eauto|].
    exists ([x] ++ more). by rewrite app_assoc.
Qed.

(** X14. A play shows up in the next recommendations: after the play of an
    existing song is recorded with a time stamp later than the user's
    earlier plays, the mood filter of that user's recommendations starts
    with the mood of that song. *)
Theorem play_then_recommend
    (w1 w2 : world) (u sid : Z) (s : Z * song_row) (st : server) :
  db_fault w1 0 = None ->
  db_fault w2 0 = None ->
  List.filter (fun x => sql_eq_id (Some (fst x)) (Some sid)) (songs st) = [s] ->
  (forall y, y ∈ history_join st (Some u) -> (fst y < now_db w1)%N) ->
  exists others,
    queries (new_events (recommendations_handler w2 (Some u))
               (after (play_handler w1 (Some u) (Some sid)) st)) =
      [SelectRecentMoods (Some u); SelectSongsByMood (s_mood (snd s) :: others)].
Proof.
  intros Hdb1 Hdb2 Hsong Hlater.
  assert (Hplay : after (play_handler w1 (Some u) (Some sid)) st =
                  emit (EvRespond {| status := 200;
                                     body := JObj [("success", JBool true)] |})
                    (add_play {| h_user_id := Some u; h_song_id := Some sid;
                                 played_at := now_db w1 |}
                       (emit (EvQuery (InsertHistory (Some u) (Some sid))) st))).
  { unfold after. unfold_routes. unfold_monad. rewrite Hdb1. reflexivity. }
  rewrite Hplay.
  match goal with |- context [new_events _ ?x] => remember x as st1 eqn:Hst1 end.
  assert (Hjoin : history_join st1 (Some u) =
                  history_join st (Some u) ++ [(now_db w1, s_mood (snd s))]).
  { rewrite Hst1. unfold history_join. cbn [history songs emit add_play].
    rewrite flat_map_app. cbn [flat_map h_user_id h_song_id played_at].
    replace (sql_eq_id (Some u) (Some u)) with true by (symmetry; apply Z.eqb_refl).
    rewrite Hsong. reflexivity. }
  destruct (latest_is_head (now_db w1, s_mood (snd s)) (history_join st (Some u))
              (merge_sort later_first (history_join st1 (Some u)))) as [rest Hrows].
  { rewrite merge_sort_Permutation. by rewrite Hjoin. }
  { apply Sorted_merge_sort. apply _. }
  { exact Hlater. }
  assert (Hrecent : exists more, recent_moods st1 (Some u) = s_mood (snd s) :: more).
  { unfold recent_moods. rewrite Hrows. cbn. eauto. }
  destruct Hrecent as [more Hrecent].
  destruct (fold_Set_add_prefix more [s_mood (snd s)]) as [others Hset].
  exists others.
  unfold new_events, after. unfold_routes. unfold_monad. rewrite Hdb2. table_fields.
  change (recent_moods (emit (EvQuery (SelectRecentMoods (Some u))) st1) (Some u))
    with (recent_moods st1 (Some u)).
  rewrite Hrecent.
  assert (Hmoods : JS.Set_of (s_mood (snd s) :: more) = s_mood (snd s) :: others).
  { unfold JS.Set_of. cbn [fold_left]. unfold JS.Set_add at 2. cbn [existsb app].
    exact Hset. }
  rewrite Hmoods.
  destruct (db_fault w2 1); table_fields; tail_of_trace; reflexivity.
Qed.

(** X8. Registering the nested routes again and again does no harm to
    dispatch: after any number of uploads, at least one, a playlists, play
    or recommendations request is handled by its handler, and the top-level
    routes still are by theirs. *)
Theorem nested_routes_dispatch
    (st : server) (rs : list (world * upload_request)) (w : world) :
  routes st = top_level_routes ->
  rs <> [] ->
  (forall uid, serve w (Playlists uid) (uploads rs st) =
               playlists_handler w uid (uploads rs st)) /\
  (forall uid sid, serve w (Play uid sid) (uploads rs st) =
                   play_handler w uid sid (uploads rs st)) /\
  (forall uid, serve w (Recommendations uid) (uploads rs st) =
               recommendations_handler w uid (uploads rs st)) /\
  (forall c, serve w (Signup c) (uploads rs st) = signup_handler w c (uploads rs st)) /\
  (forall c, serve w (Login c) (uploads rs st) = login_handler w c (uploads rs st)) /\
  (forall r, serve w (Upload r) (uploads rs st) = upload_route w r (uploads rs st)).
Proof.
  intros Hroutes Hrs.
  pose proof (uploads_routes rs st [] (eq_trans Hroutes (eq_sym (app_nil_r _)))) as E.
  rewrite app_nil_r in E.
  destruct rs as [|r0 rs]; [done|]. cbn [length replicate concat] in E.
  repeat split; intros; unfold serve, bind, gets; rewrite E; reflexivity.
Qed.

End ListeningMore.

Section NamingMore.

Lemma contains_In (c : ascii) (s : string) :
  Path.contains c s = true <-> In c (list_ascii_of_string s).
Proof.
  induction s as [|a r IH]; cbn; [split; [discriminate|tauto]|].
  rewrite orb_true_iff, IH, Ascii.eqb_eq. tauto.
Qed.

Lemma contains_rev (c : ascii) (s : string) :
  Path.contains c (Path.rev_string s) = false <-> Path.contains c s = false.
Proof.
  rewrite <- !not_true_iff_false, !contains_In. unfold Path.rev_string.
  rewrite list_ascii_of_string_of_list_ascii, <- in_rev. tauto.
Qed.

Lemma contains_append (c : ascii) (s t : string) :
  Path.contains c (s +:+ t) = Path.contains c s || Path.contains c t.
Proof. induction s as [|a r IH]; simpl; [done|]. by rewrite IH, orb_assoc. Qed.

Lemma until_slash_clean (s : string) :
  Path.contains Path.slash (Path.until_slash s) = false.
Proof.
  induction s as [|a r IH]; cbn; [done|].
  destruct (Ascii.eqb a Path.slash) eqn:E; cbn; [done|]. by rewrite E, IH.
Qed.

Lemma before_last_dot_clean (c : ascii) (s : string) :
  Path.contains c s = false -> Path.contains c (Path.before_last_dot s) = false.
Proof.
  induction s as [|a r IH]; cbn; [done|]. intros E.
  apply orb_false_iff in E as [Ea Er].
  destruct (Path.contains Path.dot r); cbn; [by rewrite Ea, IH|].
  destruct (Ascii.eqb a Path.dot); cbn; [done|]. by rewrite Ea, Er.
Qed.

Lemma name_clean (p : string) : Path.contains Path.slash (Path.name p) = false.
Proof.
  assert (Hbase : Path.contains Path.slash (Path.base p) = false).
  { unfold Path.base. apply contains_rev, until_slash_clean. }
  unfold Path.name. cbv zeta.
  repeat match goal with |- context [if ?b then _ else _] => destruct b end;
    auto using before_last_dot_clean.
Qed.

Lemma digits_clean (s : string) :
  all_digits s = true -> Path.contains Path.slash s = false.
Proof.
  induction s as [|a r IH]; cbn; [done|]. intros E.
  apply andb_prop in E as [Ea Er]. rewrite (IH Er), orb_false_r.
  destruct a as [[|] [|] [|] [|] [|] [|] [|] [|]]; cbn in *; congruence.
Qed.

(** X15. No original filename can steer the cover out of the covers
    directory: the name of the cover file, and so the part of the thumbnail
    path after [uploads/covers/], never contains a path separator. *)
Theorem cover_name_has_no_separator (w : world) (original : string) :
  Path.contains Path.slash (cover_file_name w (Path.name original)) = false /\
  Path.contains Path.slash (Path.name original) = false.
Proof.
  split; [|apply name_clean].
  unfold cover_file_name. rewrite !contains_append.
  rewrite (digits_clean _ (show_digits (now_cover w))), name_clean. reflexivity.
Qed.

Lemma length_append (s t : string) :
  String.length (s +:+ t) = (String.length s + String.length t)%nat.
Proof. induction s as [|a r IH]; simpl; [done|]. by rewrite IH. Qed.

Lemma append_inj_r (s1 s2 t : string) : s1 +:+ t = s2 +:+ t -> s1 = s2.
Proof.
  revert s2. induction s1 as [|a s1 IH]; intros [|b s2] E; cbn in E.
  - done.
  - apply (f_equal String.length) in E. rewrite ?length_append in E. simpl in E.
    rewrite ?length_append in E. lia.
  - apply (f_equal String.length) in E. rewrite ?length_append in E. simpl in E.
    rewrite ?length_append in E. lia.
  - injection E as -> E. by rewrite (IH s2 E).
Qed.

(** X16. Two covers get the same file name exactly when they are named in
    the same millisecond for originals with the same name-without-extension;
    the extension and the uploader play no part. *)
Theorem cover_file_name_inj (w1 w2 : world) (o1 o2 : string) :
  cover_file_name w1 (Path.name o1) = cover_file_name w2 (Path.name o2) <->
  now_cover w1 = now_cover w2 /\ Path.name o1 = Path.name o2.
Proof.
  unfold cover_file_name. split.
  - intros E. apply dash_split in E as [E1 E2]; auto using show_digits.
    split; [by apply show_inj|]. by apply append_inj_r in E2.
  - by intros [-> ->].
Qed.

End NamingMore.

Section TotalMore.

Context `{Platform}.

(** X10. Whatever the request and the world, a login changes no table and
    ends in one of three ways: the promise is rejected and nothing is sent;
    one 401 response whose only key is [error]; or one 200 response whose
    only keys are [user], [id] and [email]. *)
Theorem login_outcomes (w : world) (c : credentials) (st : server) :
  users (after (login_handler w c) st) = users st /\
  ((exists msg, fst (login_handler w c st) = inl msg /\
                responses (new_events (login_handler w c) st) = []) \/
   (exists r, fst (login_handler w c st) = inr tt /\
              responses (new_events (login_handler w c) st) = [r] /\
              ((status r = 401%N /\ json_keys (body r) = ["error"]) \/
               (status r = 200%N /\ json_keys (body r) = ["user"; "id"; "email"])))).
Proof.
  unfold new_events, after. unfold_routes. unfold_monad. table_fields.
  repeat (route_case; table_fields); (split; [reflexivity|]); tail_of_trace.
  all: first
    [ left; eexists; split; reflexivity
    | right; eexists; split; [reflexivity|]; split; [reflexivity|];
      first [ left; split; reflexivity
            | right; split; [reflexivity|]; cbn;
              match goal with |- context [u_email ?u] => destruct (u_email u) end;
              reflexivity ] ].
Qed.

(** X2. The effects of a successful upload, in order: the artifact is
    stored, its tags are parsed, the cover (if any) is written after the
    directory has been created (if absent), the INSERT is sent, the
    response follows, and the three nested routes are registered last. *)
Theorem successful_upload_trace (w : world) (r : upload_request) (st : server) :
  upload_ok ∈ responses (new_events (upload_route w r) st) ->
  exists f md row,
    u_file r = Some f /\
    parseFile (payload f) = inr md /\
    new_events (upload_route w r) st =
      [EvStore (multer_path w f) (payload f); EvParse (resolve (multer_path w f))]
      ++ cover_events w st f md
      ++ [EvQuery (InsertSong row); EvRespond upload_ok]
      ++ map EvRegister nested_routes.
Proof.
  intros Hq. unfold new_events, after, cover_events, covers in *.
  unfold_upload. unfold_monad.
  destruct (u_file r) as [f|] eqn:Hf; state_fields.
  2: { exfalso. revert Hq. tail_of_trace. intros Hq.
       apply list_elem_of_singleton in Hq. discriminate. }
  rewrite lookup_insert_eq in *. exists f.
  destruct (parseFile (payload f)) as [msg|md] eqn:Hp; state_fields.
  { exfalso. revert Hq. tail_of_trace. intros Hq.
    apply list_elem_of_singleton in Hq. discriminate. }
  exists md. revert Hq.
  repeat (upload_case; state_fields); tail_of_trace; intros Hq;
    try (apply list_elem_of_singleton in Hq; discriminate).
  all: eexists; split; [done|]; split; [done|]; reflexivity.
Qed.

End TotalMore.

(** ** The further properties at sample inputs *)

Section MoreSamples.

Import Sample Tour.

#[local] Existing Instance platform.

(** The upload of the artifact with two covers, step by step. *)
Lemma X2_sample_trace :
  upload_ok ∈ responses (new_events (upload_route calm (upload_of [Byte.x01])) boot) /\
  exists row,
    new_events (upload_route calm (upload_of [Byte.x01])) boot =
      [ EvStore "uploads/songs/1700000000000-track.mp3" [Byte.x01];
        EvParse "/srv/audix/uploads/songs/1700000000000-track.mp3";
        EvMkdir "/srv/audix/uploads/covers";
        EvWrite "/srv/audix/uploads/covers/1700000000001-track-cover.jpg" [Byte.x01];
        EvQuery (InsertSong row);
        EvRespond upload_ok ] ++ map EvRegister nested_routes.
Proof.
  assert (Hq : upload_ok
                 ∈ responses (new_events (upload_route calm (upload_of [Byte.x01])) boot)).
  { vm_compute. apply list_elem_of_here. }
  split; [exact Hq|].
  destruct (successful_upload_trace calm (upload_of [Byte.x01]) boot Hq)
    as (f & md & row & Hf & Hp & Htrace).
  injection Hf as <-. injection Hp as <-. exists row. exact Htrace.
Defined.

(** The first cover on a fresh server creates the directory. *)
Lemma X3_sample_directory :
  ("/srv/audix/uploads/covers/1700000000001-track-cover.jpg", [Byte.x01])
    ∈ cover_writes (new_events (upload_route calm (upload_of [Byte.x01])) boot) /\
  mkdir_calls (new_events (upload_route calm (upload_of [Byte.x01])) boot) =
    ["/srv/audix/uploads/covers"].
Proof.
  assert (Hw : ("/srv/audix/uploads/covers/1700000000001-track-cover.jpg", [Byte.x01])
                 ∈ cover_writes (new_events (upload_route calm (upload_of [Byte.x01])) boot)).
  { vm_compute. apply list_elem_of_here. }
  split; [exact Hw|].
  exact (proj2 (cover_directory_on_demand calm (upload_of [Byte.x01]) boot _ _ Hw)).
Defined.

(** A cover written before a rejected INSERT stays on disk. *)
Lemma X4_sample_orphaned_cover :
  files (after (upload_route down (upload_of [Byte.x01])) boot)
    !! "/srv/audix/uploads/covers/1700000000001-track-cover.jpg" = Some [Byte.x01] /\
  songs (after (upload_route down (upload_of [Byte.x01])) boot) = [].
Proof.
  destruct (cover_written_and_kept down (upload_of [Byte.x01]) boot (track [Byte.x01])
              tagged {| pic_format := "image/jpeg"; pic_data := [Byte.x01] |}
              [ {| pic_format := "image/png"; pic_data := [Byte.x02] |} ])
    as [Hfile [Hsongs _]]; try reflexivity.
  - right. reflexivity.
  - split; [exact Hfile|exact Hsongs].
Defined.

(** The scenario row: no mood, no language, user 7. *)
Lemma X5_sample_columns :
  InsertSong track_row
    ∈ queries (new_events (upload_route calm (upload_of [Byte.x00])) boot) /\
  s_mood track_row = EmptyString /\
  s_user_id track_row = Some 7%Z /\
  s_filepath track_row = "uploads/songs/1700000000000-track.mp3".
Proof.
  assert (Hq : InsertSong track_row
                 ∈ queries (new_events (upload_route calm (upload_of [Byte.x00])) boot)).
  { vm_compute. apply list_elem_of_here. }
  split; [exact Hq|].
  destruct (client_columns_pass_through calm (upload_of [Byte.x00]) boot track_row Hq)
    as (f & md & Hf & Hp & Hmood & _ & Huser & Hpath & _).
  injection Hf as <-. rewrite Hmood, Huser, Hpath. repeat split.
Defined.

(** The invariant holds on a fresh server, hence after the evening. *)
Lemma X6_sample_evening :
  songs_stored boot /\ songs_stored (serve_all evening boot).
Proof.
  assert (H0 : songs_stored boot).
  { intros id row Hin. simpl in Hin. by apply elem_of_nil in Hin. }
  split; [exact H0|]. exact (songs_stay_stored evening boot H0).
Defined.

(** After two uploads the playlists route is served by its handler. *)
Lemma X8_sample_dispatch :
  routes boot = top_level_routes /\
  serve calm (Playlists (Some 7%Z)) (uploads same_millisecond boot) =
    playlists_handler calm (Some 7%Z) (uploads same_millisecond boot).
Proof.
  split; [reflexivity|].
  apply (nested_routes_dispatch boot same_millisecond calm); [reflexivity|discriminate].
Defined.

(** A newcomer signs up and logs in. *)
Lemma X9_sample_newcomer :
  matching_users (Some "new@b.com") boot = [] /\
  responses (new_events (login_handler calm newcomer)
               (after (signup_handler calm newcomer) boot)) =
    [{| status := 200;
        body := JObj [("user", JObj [("id", JNum 2); ("email", JStr "new@b.com")])] |}].
Proof.
  split; [reflexivity|].
  apply (signup_then_login calm calm newcomer boot "new@b.com" "secret");
    reflexivity.
Defined.

(** With the database down a login gets no answer. *)
Lemma X11_sample_database_down :
  db_fault down 0 = Some "connection refused" /\
  fst (login_handler down alice boot) = inl "connection refused" /\
  responses (new_events (login_handler down alice) boot) = [].
Proof.
  split; [reflexivity|].
  destruct (database_error_goes_unanswered down boot "connection refused" eq_refl)
    as (_ & Hlogin & _).
  exact (Hlogin alice).
Defined.

(** The two playlists of user 7, and none without a user id. *)
Lemma X12_sample_playlists :
  db_fault calm 0 = None /\
  exists rows,
    responses (new_events (playlists_handler calm (Some 7%Z)) library) =
      [{| status := 200; body := JArr (map json_playlist rows) |}] /\
    sublist rows (playlists library).
Proof.
  split; [reflexivity|].
  destruct (playlists_of_the_user calm (Some 7%Z) library eq_refl)
    as (rows & Hr & _ & Hsub & _).
  exists rows. split; [exact Hr|exact Hsub].
Defined.

(** The listener is recommended songs of a recent mood only. *)
Lemma X13_sample_recommendations :
  (forall l, shuffle calm l ≡ₚ l) /\
  exists result,
    responses (new_events (recommendations_handler calm (Some 7%Z)) listener) =
      [{| status := 200; body := JArr (map json_song result) |}] /\
    (length result <= 10)%nat.
Proof.
  assert (Hperm : forall l, shuffle calm l ≡ₚ l) by (intros l; reflexivity).
  split; [exact Hperm|].
  destruct (recommendations_share_a_recent_mood calm (Some 7%Z) listener
              eq_refl eq_refl Hperm) as (result & Hr & Hlen & _).
  exists result. split; [exact Hr|exact Hlen].
Defined.

(** The listener plays the sad song once more. *)
Lemma X14_sample_play :
  (forall y, y ∈ history_join listener (Some 7%Z) -> (fst y < now_db calm)%N) /\
  exists others,
    queries (new_events (recommendations_handler calm (Some 7%Z))
               (after (play_handler calm (Some 7%Z) (Some 2%Z)) listener)) =
      [SelectRecentMoods (Some 7%Z); SelectSongsByMood ("sad" :: others)].
Proof.
  assert (Hlater : forall y, y ∈ history_join listener (Some 7%Z) ->
                             (fst y < now_db calm)%N).
  { intros y Hy. simpl in Hy.
    repeat (apply elem_of_cons in Hy as [->|Hy]; [simpl; lia|]).
    by apply elem_of_nil in Hy. }
  split; [exact Hlater|].
  exact (play_then_recommend calm calm 7 2 (2%Z, mood_song "sad") listener
           eq_refl eq_refl eq_refl Hlater).
Defined.

End MoreSamples.
